(** * Support-ticket client: aggregation layer and session coordinator

    A shallow embedding of [src/lib/api.ts] (the Aggregator: profile, ticket,
    message accessors) and of the [AuthProvider] component (the Session
    Coordinator), together with the properties the specification states
    about them.

    The remote backend (Supabase: Postgres tables, auth, storage) is not
    part of the repository.  It is modelled here as an in-memory relational
    store [Db] inside a [World], with
    - a fault oracle that can make any table round trip fail with an error,
    - primary-key uniqueness on [profiles.id] (error code 23505),
    - server-side defaults (generated ids, [now()] timestamps).
    The client never throws on a failed request: it receives a
    [{data, error}] pair, here [Response].  The [try/catch] wrappers of the
    source are therefore not reachable in the model and are left out.

    Timestamps (ISO strings in the source) are integers; JavaScript's
    [null] and [undefined] are both [None]. *)

From Stdlib Require Import ZArith Ascii String.
From stdpp Require Import base option list sorting gmap strings.

Local Open Scope string_scope.
Local Open Scope Z_scope.
Local Open Scope list_scope.

(** ** Data model ([src/types/supabase.ts]) *)

Inductive Role := admin | customer.
Inductive TicketStatus := open | pending | resolved.
Inductive Priority := low | medium | high.

(** [UserType = 'admin' | 'customer' | null] *)
Abbreviation UserType := (option Role).

#[global] Instance Role_eq_dec : EqDecision Role.
Proof. solve_decision. Defined.
#[global] Instance TicketStatus_eq_dec : EqDecision TicketStatus.
Proof. solve_decision. Defined.
#[global] Instance Priority_eq_dec : EqDecision Priority.
Proof. solve_decision. Defined.

Definition role_str (r : Role) : string :=
  match r with admin => "admin" | customer => "customer" end.

Definition status_str (s : TicketStatus) : string :=
  match s with open => "open" | pending => "pending" | resolved => "resolved" end.

(** Truthiness of a JavaScript string that may be absent. *)
Definition truthy (s : option string) : bool :=
  match s with
  | Some x => negb (bool_decide (x = ""))
  | None => false
  end.

Module Profile.
Record t := mk {
  id : string;
  email : string;
  full_name : option string;
  avatar_url : option string;
  user_type : Role;
  created_at : Z;
  updated_at : Z
}.
End Profile.

Module Ticket.
Record t := mk {
  id : string;
  subject : string;
  customer_id : string;
  status : TicketStatus;
  priority : Priority;
  category : string;
  assigned_to : option string;
  created_at : Z;
  updated_at : Z
}.
End Ticket.

Module Message.
Record t := mk {
  id : string;
  ticket_id : string;
  sender_id : string;
  content : string;
  created_at : Z
}.
End Message.

Module Attachment.
Record t := mk {
  id : string;
  message_id : string;
  name : string;
  file_path : string;
  size : Z;
  created_at : Z
}.
End Attachment.

(** The embedded sender of the last-message query,
    [sender:sender_id(id, email, full_name, avatar_url, user_type)]. *)
Module Sender.
Record t := mk {
  id : string;
  email : string;
  full_name : option string;
  avatar_url : option string;
  user_type : Role
}.
Definition of_profile (p : Profile.t) : t :=
  mk (Profile.id p) (Profile.email p) (Profile.full_name p)
     (Profile.avatar_url p) (Profile.user_type p).
End Sender.

(** A message row of the list view, with its joined sender. *)
Module LastMessage.
Record t := mk { row : Message.t; sender : option Sender.t }.
End LastMessage.

(** A message decorated by [getTicket] / [getMessages]. *)
Module EnrichedMessage.
Record t := mk {
  row : Message.t;
  sender : option Profile.t;
  attachments : list Attachment.t
}.
End EnrichedMessage.

(** A ticket with its joined fields ([customer?], [assigned_to_profile?],
    [messages?], [unread?], [last_message?], [message_count?]). *)
Module EnrichedTicket.
Record t := mk {
  row : Ticket.t;
  customer : option Profile.t;
  assigned_to_profile : option Profile.t;
  message_count : option nat;
  last_message : option LastMessage.t;
  messages : list EnrichedMessage.t;
  unread : bool
}.
End EnrichedTicket.

(** [Partial<Ticket>] restricted to the stored columns. *)
Module TicketUpdates.
Record t := mk {
  id : option string;
  subject : option string;
  customer_id : option string;
  status : option TicketStatus;
  priority : option Priority;
  category : option string;
  assigned_to : option (option string);
  created_at : option Z;
  updated_at : option Z
}.
(** The object literal [{}]. *)
Definition empty : t := mk None None None None None None None None None.
(** [{...updates, updated_at: ts}] *)
Definition with_updated_at (u : t) (ts : Z) : t :=
  mk (id u) (subject u) (customer_id u) (status u) (priority u)
     (category u) (assigned_to u) (created_at u) (Some ts).
(** The row after [update(u)]: a field of [u] that is present replaces the
    column. *)
Definition apply (u : t) (r : Ticket.t) : Ticket.t :=
  Ticket.mk
    (default (Ticket.id r) (id u))
    (default (Ticket.subject r) (subject u))
    (default (Ticket.customer_id r) (customer_id u))
    (default (Ticket.status r) (status u))
    (default (Ticket.priority r) (priority u))
    (default (Ticket.category r) (category u))
    (default (Ticket.assigned_to r) (assigned_to u))
    (default (Ticket.created_at r) (created_at u))
    (default (Ticket.updated_at r) (updated_at u)).
End TicketUpdates.

(** ** The backend *)

Record Db := mkDb {
  profiles : list Profile.t;
  tickets : list Ticket.t;
  messages : list Message.t;
  attachments : list Attachment.t
}.

(** A structured failure of a request; [code] is the Postgres / PostgREST
    error code. *)
Record PgError := mkErr { code : string }.

(** The [{data, error}] pair a request resolves to. *)
Inductive Response (A : Type) :=
| Ok (data : A)
| Err (error : PgError).
Arguments Ok {A} data.
Arguments Err {A} error.

(** The table requests the client issues, as they go over the wire. *)
Inductive Request :=
| SelectProfilesEqId (userId : string)
| SelectProfileSingle (userId : string)
| SelectProfilesInId (ids : list string)
| InsertProfile (userId email : string) (userType : Role)
| SelectTickets (status : option string) (owner : option string)
| SelectTicketSingle (ticketId : string)
| InsertTicket (subject customerId : string) (priority : Priority)
               (category : string) (status : TicketStatus)
| UpdateTicket (ticketId : string) (updates : TicketUpdates.t)
| SelectMessageTicketIds (ticketIds : list string)
| SelectLastMessage (ticketId : string)
| SelectMessages (ticketId : string)
| InsertMessage (ticketId senderId content : string)
| SelectAttachmentsIn (messageIds : list string).

(** User and session of the auth service. *)
Record User := mkUser { user_id : string; user_email : option string }.
Record Session := mkSession { session_user : User }.

(** The React state of [AuthProvider]. *)
Record AuthState := mkAuth {
  session : option Session;
  user : option User;
  profile : option Profile.t;
  userType : UserType;
  isLoading : bool;
  isInitialized : bool
}.

Record World := mkWorld {
  db : Db;
  (** number of table round trips made so far; doubles as the wall clock *)
  tick : nat;
  (** the fault oracle: whether the round trip made at a given tick fails *)
  fault : nat -> Request -> option PgError;
  (** server-side id generator *)
  uuid : nat -> string;
  (** what [supabase.auth.getUser()] resolves to ([None]: no user id) *)
  auth_user : option string;
  (** what [supabase.auth.getSession()] resolves to *)
  auth_session : option Session;
  (** what [supabase.auth.signUp({email, password})] resolves to *)
  auth_signUp_result : string -> string -> Response (option User);
  (** live subscriptions to the auth-change stream, by handle *)
  listeners : list nat;
  (** handles on which [unsubscribe] has been invoked, in order *)
  unsubscribed : list nat;
  (** requests issued so far, oldest first *)
  log : list Request;
  (** the coordinator's state *)
  auth : AuthState
}.

Definition now (w : World) : Z := Z.of_nat (tick w).

Definition set_db (d : Db) (w : World) : World :=
  mkWorld d (tick w) (fault w) (uuid w) (auth_user w) (auth_session w)
          (auth_signUp_result w) (listeners w) (unsubscribed w) (log w) (auth w).

Definition set_auth (a : AuthState) (w : World) : World :=
  mkWorld (db w) (tick w) (fault w) (uuid w) (auth_user w) (auth_session w)
          (auth_signUp_result w) (listeners w) (unsubscribed w) (log w) a.

(** One more round trip has been made. *)
Definition advance (rq : Request) (w : World) : World :=
  mkWorld (db w) (S (tick w)) (fault w) (uuid w) (auth_user w) (auth_session w)
          (auth_signUp_result w) (listeners w) (unsubscribed w) (log w ++ [rq]) (auth w).

(** A table round trip: the oracle decides whether it fails; otherwise the
    statement [exec] runs against the store. *)
Definition round_trip {A} (rq : Request) (exec : World -> Response A * Db)
  (w : World) : Response A * World :=
  match fault w (tick w) rq with
  | Some e => (Err e, advance rq w)
  | None => let '(r, d) := exec w in (r, advance rq (set_db d w))
  end.

(** A read-only statement. *)
Definition query {A} (rq : Request) (rows : Db -> A) : World -> Response A * World :=
  round_trip rq (fun w => (Ok (rows (db w)), db w)).

(** [.single()]: exactly one row, or error PGRST116. *)
Definition single {A} (rows : list A) : Response A :=
  match rows with
  | [r] => Ok r
  | _ => Err (mkErr "PGRST116")
  end.

Definition duplicate_key : PgError := mkErr "23505".

(** ** Asynchronous computations

    An [async] function is a tree of atomic steps.  A step is either a
    round trip to the backend (an [await] of a request) or a synchronous
    piece of client code between two awaits; other tasks may run between
    any two steps. *)

Inductive Async (A : Type) : Type :=
| Return (a : A)
| Step {X : Type} (io : World -> X * World) (k : X -> Async A).
Arguments Return {A} a.
Arguments Step {A X} io k.

Fixpoint bind {A B} (m : Async A) (f : A -> Async B) : Async B :=
  match m with
  | Return a => f a
  | Step io k => Step io (fun x => bind (k x) f)
  end.

Notation "'await' x := e 'in' k" := (bind e (fun x => k))
  (at level 10, x pattern, e at level 100, k at level 200,
   format "'[v' 'await'  x  :=  e  'in' '/' k ']'").

Notation "e ;; k" := (bind e (fun _ => k))
  (at level 100, k at level 200, right associativity).

(** A single atomic step. *)
Definition io {X} (f : World -> X * World) : Async X := Step f Return.

(** A synchronous state update. *)
Definition sync (f : World -> World) : Async unit := io (fun w => (tt, f w)).

(** Run a task alone, to completion. *)
Fixpoint run {A} (m : Async A) (w : World) : A * World :=
  match m with
  | Return a => (a, w)
  | Step io k => let '(x, w') := io w in run (k x) w'
  end.

(** Run two tasks under a schedule: [true] lets the first task take its
    next step, [false] the second.  A finished task lets the turn pass. *)
Fixpoint interleave {A B} (sched : list bool) (p : Async A) (q : Async B)
  (w : World) : Async A * Async B * World :=
  match sched with
  | [] => (p, q, w)
  | true :: s =>
      match p with
      | Return _ => interleave s p q w
      | Step io k => let '(x, w') := io w in interleave s (k x) q w'
      end
  | false :: s =>
      match q with
      | Return _ => interleave s p q w
      | Step io k => let '(x, w') := io w in interleave s p (k x) w'
      end
  end.

(** Two concurrent tasks: interleaved as the schedule says, then whatever
    is left of each runs to completion. *)
Definition concurrently {A B} (sched : list bool) (p : Async A) (q : Async B)
  (w : World) : A * B * World :=
  let '(p', q', w1) := interleave sched p q w in
  let '(a, w2) := run p' w1 in
  let '(b, w3) := run q' w2 in
  (a, b, w3).

(** ** Statements on [profiles] *)

(** The rows of [profiles] with the given id. *)
Definition profile_rows (userId : string) (d : Db) : list Profile.t :=
  filter (fun p => Profile.id p = userId) (profiles d).

(** [from('profiles').select('*').eq('id', userId)] *)
Definition profiles_eq_id (userId : string) : Async (Response (list Profile.t)) :=
  io (query (SelectProfilesEqId userId) (profile_rows userId)).

(** [from('profiles').select('*').eq('id', userId).single()] *)
Definition profiles_eq_id_single (userId : string) : Async (Response Profile.t) :=
  io (round_trip (SelectProfileSingle userId)
        (fun w => (single (profile_rows userId (db w)), db w))).

(** [from('profiles').select('*').in('id', ids)] *)
Definition profiles_in_id (ids : list string) : Async (Response (list Profile.t)) :=
  io (query (SelectProfilesInId ids)
        (fun d => filter (fun p => Profile.id p ∈ ids) (profiles d))).

(** The row the server stores for [insert({id, email, user_type})]. *)
Definition new_profile (userId email : string) (userType : Role) (w : World) : Profile.t :=
  Profile.mk userId email None None userType (now w) (now w).

(** [from('profiles').insert({id, email, user_type}).select().maybeSingle()]:
    the primary key rejects a second row with the same id. *)
Definition profiles_insert (userId email : string) (userType : Role)
  : Async (Response (option Profile.t)) :=
  io (round_trip (InsertProfile userId email userType)
        (fun w =>
           let d := db w in
           match profile_rows userId d with
           | _ :: _ => (Err duplicate_key, d)
           | [] =>
               let p := new_profile userId email userType w in
               (Ok (Some p),
                mkDb (profiles d ++ [p]) (tickets d) (messages d) (attachments d))
           end)).

(** ** Profile functions ([src/lib/api.ts]) *)

Definition getProfile (userId : string) : Async (option Profile.t) :=
  await r := profiles_eq_id userId in
  match r with
  | Err _ => Return None
  | Ok data =>
      match data with
      | [] => Return None
      | p :: _ => Return (Some p)
      end
  end.

Definition createProfile (userId email : string) (userType : Role)
  : Async (option Profile.t) :=
  await existingProfile := getProfile userId in
  match existingProfile with
  | Some p => Return (Some p)
  | None =>
      await r := profiles_insert userId email userType in
      match r with
      | Err error =>
          if bool_decide (code error = "23505")
          then getProfile userId
          else Return None
      | Ok data => Return data
      end
  end.

(** ** The session coordinator ([AuthProvider]) *)

Definition setSession (s : option Session) : Async unit :=
  sync (fun w => let a := auth w in
    set_auth (mkAuth s (user a) (profile a) (userType a) (isLoading a) (isInitialized a)) w).
Definition setUser (u : option User) : Async unit :=
  sync (fun w => let a := auth w in
    set_auth (mkAuth (session a) u (profile a) (userType a) (isLoading a) (isInitialized a)) w).
Definition setProfile (p : option Profile.t) : Async unit :=
  sync (fun w => let a := auth w in
    set_auth (mkAuth (session a) (user a) p (userType a) (isLoading a) (isInitialized a)) w).
Definition setUserType (t : UserType) : Async unit :=
  sync (fun w => let a := auth w in
    set_auth (mkAuth (session a) (user a) (profile a) t (isLoading a) (isInitialized a)) w).
Definition setIsLoading (b : bool) : Async unit :=
  sync (fun w => let a := auth w in
    set_auth (mkAuth (session a) (user a) (profile a) (userType a) b (isInitialized a)) w).
Definition setIsInitialized (b : bool) : Async unit :=
  sync (fun w => let a := auth w in
    set_auth (mkAuth (session a) (user a) (profile a) (userType a) (isLoading a) b) w).

(** [await new Promise(resolve => setTimeout(resolve, ms))]: the task yields. *)
Definition delay (ms : nat) : Async unit := sync (fun w => w).

(** Adopt a profile as the current one. *)
Definition adopt (p : Profile.t) : Async (option Profile.t) :=
  setProfile (Some p);;
  setUserType (Some (Profile.user_type p));;
  Return (Some p).

Definition fetchOrCreateProfile (userId : string) (userEmail : option string)
  : Async (option Profile.t) :=
  delay 50;;
  await userProfile := getProfile userId in
  match userProfile with
  | Some p => adopt p
  | None =>
      match userEmail with
      | Some email =>
          if truthy userEmail then
            await newProfile := createProfile userId email customer in
            match newProfile with
            | Some np => adopt np
            | None =>
                await retryProfile := getProfile userId in
                match retryProfile with
                | Some rp => adopt rp
                | None => Return None
                end
            end
          else Return None
      | None => Return None
      end
  end.

(** ** Statements on [tickets], [messages] and [attachments] *)

(** [[...new Set(xs)]]: the distinct elements, in order of first occurrence. *)
Fixpoint distinct (xs : list string) : list string :=
  match xs with
  | [] => []
  | x :: r => x :: filter (fun y => y ≠ x) (distinct r)
  end.

Definition newest_first (a b : Ticket.t) : Prop :=
  Ticket.updated_at b ≤ Ticket.updated_at a.

Definition oldest_first (a b : Message.t) : Prop :=
  Message.created_at a ≤ Message.created_at b.

Definition newest_message_first (a b : Message.t) : Prop :=
  Message.created_at b ≤ Message.created_at a.

#[global] Instance newest_first_dec : RelDecision newest_first.
Proof. intros a b. unfold newest_first. apply _. Defined.
#[global] Instance oldest_first_dec : RelDecision oldest_first.
Proof. intros a b. unfold oldest_first. apply _. Defined.
#[global] Instance newest_message_first_dec : RelDecision newest_message_first.
Proof. intros a b. unfold newest_message_first. apply _. Defined.

(** The [WHERE] clause of the ticket list: the optional [eq('status', _)]
    and [eq('customer_id', _)] filters. *)
Definition ticket_matches (status owner : option string) (t : Ticket.t) : Prop :=
  (match status with
   | Some s => status_str (Ticket.status t) = s
   | None => True
   end) ∧
  (match owner with
   | Some c => Ticket.customer_id t = c
   | None => True
   end).

#[global] Instance ticket_matches_dec status owner t :
  Decision (ticket_matches status owner t).
Proof. unfold ticket_matches. destruct status, owner; apply _. Defined.

(** The rows of the ticket list, [order('updated_at', {ascending: false})]. *)
Definition ticket_list (status owner : option string) (d : Db) : list Ticket.t :=
  merge_sort newest_first (filter (ticket_matches status owner) (tickets d)).

Definition tickets_select (status owner : option string)
  : Async (Response (list Ticket.t)) :=
  io (query (SelectTickets status owner) (ticket_list status owner)).

Definition ticket_rows (ticketId : string) (d : Db) : list Ticket.t :=
  filter (fun t => Ticket.id t = ticketId) (tickets d).

(** [from('tickets').select('*').eq('id', ticketId).single()] *)
Definition tickets_eq_id_single (ticketId : string) : Async (Response Ticket.t) :=
  io (round_trip (SelectTicketSingle ticketId)
        (fun w => (single (ticket_rows ticketId (db w)), db w))).

(** [from('tickets').insert({subject, customer_id, priority, category,
    status}).select().single()]: the server generates the id and both
    timestamps, and leaves the assignee empty. *)
Definition tickets_insert (subject customerId : string) (priority : Priority)
  (category : string) (status : TicketStatus) : Async (Response Ticket.t) :=
  io (round_trip (InsertTicket subject customerId priority category status)
        (fun w =>
           let d := db w in
           let t := Ticket.mk (uuid w (tick w)) subject customerId status
                      priority category None (now w) (now w) in
           (Ok t, mkDb (profiles d) (tickets d ++ [t]) (messages d) (attachments d)))).

(** [from('tickets').update(updates).eq('id', ticketId).select().single()] *)
Definition tickets_update (ticketId : string) (updates : TicketUpdates.t)
  : Async (Response Ticket.t) :=
  io (round_trip (UpdateTicket ticketId updates)
        (fun w =>
           let d := db w in
           match ticket_rows ticketId d with
           | [t] =>
               let t' := TicketUpdates.apply updates t in
               (Ok t',
                mkDb (profiles d)
                     (map (fun r => if bool_decide (Ticket.id r = ticketId)
                                    then TicketUpdates.apply updates r else r)
                          (tickets d))
                     (messages d) (attachments d))
           | _ => (Err (mkErr "PGRST116"), d)
           end)).

(** The messages of one ticket, oldest first:
    [eq('ticket_id', ticketId).order('created_at', {ascending: true})]. *)
Definition ticket_messages (ticketId : string) (d : Db) : list Message.t :=
  merge_sort oldest_first
    (filter (fun m => Message.ticket_id m = ticketId) (messages d)).

Definition messages_select (ticketId : string) : Async (Response (list Message.t)) :=
  io (query (SelectMessages ticketId) (ticket_messages ticketId)).

(** [select('ticket_id').in('ticket_id', ticketIds)] *)
Definition messages_ticket_ids (ticketIds : list string)
  : Async (Response (list string)) :=
  io (query (SelectMessageTicketIds ticketIds)
        (fun d => map Message.ticket_id
                    (filter (fun m => Message.ticket_id m ∈ ticketIds) (messages d)))).

(** The join [sender:sender_id(...)]. *)
Definition join_sender (d : Db) (m : Message.t) : LastMessage.t :=
  LastMessage.mk m
    (Sender.of_profile <$> head (profile_rows (Message.sender_id m) d)).

(** [select('*, sender:sender_id(...)').eq('ticket_id', ticketId)
    .order('created_at', {ascending: false}).limit(1)] *)
Definition messages_last (ticketId : string) : Async (Response (list LastMessage.t)) :=
  io (query (SelectLastMessage ticketId)
        (fun d => map (join_sender d)
                    (take 1 (merge_sort newest_message_first
                               (filter (fun m => Message.ticket_id m = ticketId)
                                       (messages d)))))).

Definition new_message (ticketId senderId content : string) (w : World) : Message.t :=
  Message.mk (uuid w (tick w)) ticketId senderId content (now w).

Definition add_message (m : Message.t) (d : Db) : Db :=
  mkDb (profiles d) (tickets d) (messages d ++ [m]) (attachments d).

(** [from('messages').insert({ticket_id, sender_id, content})] *)
Definition messages_insert (ticketId senderId content : string)
  : Async (Response unit) :=
  io (round_trip (InsertMessage ticketId senderId content)
        (fun w => (Ok tt, add_message (new_message ticketId senderId content w) (db w)))).

(** [from('messages').insert({...}).select().single()] *)
Definition messages_insert_single (ticketId senderId content : string)
  : Async (Response Message.t) :=
  io (round_trip (InsertMessage ticketId senderId content)
        (fun w => let m := new_message ticketId senderId content w in
                  (Ok m, add_message m (db w)))).

(** [from('attachments').select('*').in('message_id', messageIds)] *)
Definition attachments_in (messageIds : list string)
  : Async (Response (list Attachment.t)) :=
  io (query (SelectAttachmentsIn messageIds)
        (fun d => filter (fun a => Attachment.message_id a ∈ messageIds)
                         (attachments d))).

(** [supabase.auth.getUser()], reduced to [profile?.user?.id]. *)
Definition auth_getUser : Async (option string) :=
  io (fun w => (auth_user w, w)).

(** [new Date().toISOString()] *)
Definition Date_now : Async Z := io (fun w => (now w, w)).

(** ** Ticket and message functions ([src/lib/api.ts]) *)

(** [rows.reduce((map, profile) => ({...map, [profile.id]: profile}), {})] *)
Definition profile_map (rows : list Profile.t) : gmap string Profile.t :=
  foldl (fun m p => <[Profile.id p := p]> m) ∅ rows.

(** [messageCountMap[ticketId] = (messageCountMap[ticketId] || 0) + 1] *)
Definition count_messages (ticketIds : list string) : gmap string nat :=
  foldl (fun m tid => <[tid := (default 0 (m !! tid) + 1)%nat]> m) ∅ ticketIds.

(** Attachments grouped by message id, in the order received. *)
Definition group_attachments (rows : list Attachment.t)
  : gmap string (list Attachment.t) :=
  foldl (fun m a =>
           <[Attachment.message_id a :=
               default [] (m !! Attachment.message_id a) ++ [a]]> m)
        ∅ rows.

(** [data] of a response, [null] on error. *)
Definition data_of {A} (r : Response A) : option A :=
  match r with Ok d => Some d | Err _ => None end.

(** The loop over [ticketIds] that fetches the last message of each. *)
Fixpoint fetch_last_messages (ticketIds : list string)
  (lastMessagesMap : gmap string LastMessage.t)
  : Async (gmap string LastMessage.t) :=
  match ticketIds with
  | [] => Return lastMessagesMap
  | ticketId :: rest =>
      await r := messages_last ticketId in
      match data_of r with
      | Some (m :: _) => fetch_last_messages rest (<[ticketId := m]> lastMessagesMap)
      | _ => fetch_last_messages rest lastMessagesMap
      end
  end.

(** The assignee of a ticket when it is truthy. *)
Definition assignee (t : Ticket.t) : option string :=
  if truthy (Ticket.assigned_to t) then Ticket.assigned_to t else None.

Definition decorate_ticket (customerMap assignedMap : gmap string Profile.t)
  (messageCountMap : gmap string nat)
  (lastMessagesMap : gmap string LastMessage.t) (ticket : Ticket.t)
  : EnrichedTicket.t :=
  EnrichedTicket.mk ticket
    (customerMap !! Ticket.customer_id ticket)
    (match assignee ticket with
     | Some a => assignedMap !! a
     | None => None
     end)
    (Some (default 0%nat (messageCountMap !! Ticket.id ticket)))
    (lastMessagesMap !! Ticket.id ticket)
    []
    false.

(** [status && status !== 'all']: the status filter that is applied. *)
Definition status_filter (status : option string) : option string :=
  if truthy status && negb (bool_decide (status = Some "all"))
  then status else None.

(** [profile?.user?.id]: the owner filter that is applied for a customer. *)
Definition owner_filter (uid : option string) : option string :=
  if truthy uid then uid else None.

(** The owner restriction [getTickets] ends up applying in a world. *)
Definition owner_restriction (userType : UserType) (w : World) : option string :=
  match userType with
  | Some customer => owner_filter (auth_user w)
  | _ => None
  end.

Definition getTickets (userType : UserType) (status : option string)
  : Async (list EnrichedTicket.t) :=
  let statusFilter := status_filter status in
  await owner :=
    (match userType with
     | Some customer =>
         await uid := auth_getUser in
         Return (owner_filter uid)
     | _ => Return None
     end) in
  await r := tickets_select statusFilter owner in
  match r with
  | Err _ => Return []
  | Ok [] => Return []
  | Ok tickets =>
      let customerIds := distinct (map Ticket.customer_id tickets) in
      await customers := profiles_in_id customerIds in
      let assignedToIds := distinct (omap assignee tickets) in
      await assignedProfiles :=
        (match assignedToIds with
         | [] => Return (Ok [])
         | _ => profiles_in_id assignedToIds
         end) in
      let customerMap :=
        match data_of customers with Some cs => profile_map cs | None => ∅ end in
      let assignedMap :=
        match data_of assignedProfiles with Some ps => profile_map ps | None => ∅ end in
      let ticketIds := map Ticket.id tickets in
      await messages := messages_ticket_ids ticketIds in
      let messageCountMap :=
        match data_of messages with
        | Some (m :: ms) => count_messages (m :: ms)
        | _ => ∅
        end in
      await lastMessagesMap := fetch_last_messages ticketIds ∅ in
      Return (map (decorate_ticket customerMap assignedMap messageCountMap
                     lastMessagesMap) tickets)
  end.

(** The sender lookup of [getTicket]: skipped when there are no messages,
    empty when the query fails. *)
Definition fetch_sender_profiles (messages : option (list Message.t))
  : Async (gmap string Profile.t) :=
  match messages with
  | Some (m :: ms) =>
      let senderIds := distinct (map Message.sender_id (m :: ms)) in
      await r := profiles_in_id senderIds in
      match r with
      | Err _ => Return ∅
      | Ok profiles => Return (profile_map profiles)
      end
  | _ => Return ∅
  end.

(** The attachment lookup of [getTicket], grouped by message id. *)
Definition fetch_attachments (messages : option (list Message.t))
  : Async (gmap string (list Attachment.t)) :=
  match messages with
  | Some (m :: ms) =>
      let messageIds := map Message.id (m :: ms) in
      await r := attachments_in messageIds in
      match r with
      | Err _ => Return ∅
      | Ok attachments => Return (group_attachments attachments)
      end
  | _ => Return ∅
  end.

Definition decorate_message (senderProfiles : gmap string Profile.t)
  (attachmentsByMessage : gmap string (list Attachment.t)) (message : Message.t)
  : EnrichedMessage.t :=
  EnrichedMessage.mk message
    (senderProfiles !! Message.sender_id message)
    (default [] (attachmentsByMessage !! Message.id message)).

Definition getTicket (ticketId : string) : Async (option EnrichedTicket.t) :=
  await r := tickets_eq_id_single ticketId in
  match r with
  | Err _ => Return None
  | Ok ticket =>
      await c := profiles_eq_id_single (Ticket.customer_id ticket) in
      let customer := data_of c in
      await assignedProfile :=
        (match assignee ticket with
         | Some a =>
             await pr := profiles_eq_id_single a in
             Return (data_of pr)
         | None => Return None
         end) in
      await mr := messages_select ticketId in
      let messages := data_of mr in
      await senderProfiles := fetch_sender_profiles messages in
      await attachmentsByMessage := fetch_attachments messages in
      let enrichedMessages :=
        match messages with
        | Some ms => map (decorate_message senderProfiles attachmentsByMessage) ms
        | None => []
        end in
      Return (Some (EnrichedTicket.mk ticket customer assignedProfile
                      None None enrichedMessages false))
  end.

Definition createTicket (subject customerId : string) (priority : Priority)
  (category initialMessage : string) : Async (option Ticket.t) :=
  await r := tickets_insert subject customerId priority category open in
  match r with
  | Err _ => Return None
  | Ok ticket =>
      (if truthy (Some initialMessage)
       then
         await _ := messages_insert (Ticket.id ticket) customerId initialMessage in
         Return tt
       else Return tt);;
      Return (Some ticket)
  end.

Definition updateTicket (ticketId : string) (updates : TicketUpdates.t)
  : Async (option Ticket.t) :=
  await ts := Date_now in
  let updatesWithTimestamp := TicketUpdates.with_updated_at updates ts in
  await r := tickets_update ticketId updatesWithTimestamp in
  match r with
  | Err _ => Return None
  | Ok data => Return (Some data)
  end.

Definition createMessage (ticketId senderId content : string)
  : Async (option Message.t) :=
  await r := messages_insert_single ticketId senderId content in
  match r with
  | Err _ => Return None
  | Ok data =>
      updateTicket ticketId TicketUpdates.empty;;
      Return (Some data)
  end.

(** ** Session coordinator: initialisation and the auth-change stream *)

(** What an effect hands back for teardown: here only the closure
    [() => { subscription.unsubscribe(); }]. *)
Inductive Cleanup := Unsubscribe (subscription : nat).

Definition auth_getSession : Async (option Session) :=
  io (fun w => (auth_session w, w)).

(** [supabase.auth.onAuthStateChange(callback)]: registers the listener and
    returns the subscription. *)
Definition auth_onAuthStateChange : Async nat :=
  io (fun w =>
        let h := (length (listeners w) + length (unsubscribed w))%nat in
        (h, mkWorld (db w) (tick w) (fault w) (uuid w) (auth_user w)
              (auth_session w) (auth_signUp_result w) (listeners w ++ [h]) (unsubscribed w)
              (log w) (auth w))).

(** [subscription.unsubscribe()] *)
Definition unsubscribe (h : nat) (w : World) : World :=
  mkWorld (db w) (tick w) (fault w) (uuid w) (auth_user w) (auth_session w)
          (auth_signUp_result w) (filter (fun x => x ≠ h) (listeners w)) (unsubscribed w ++ [h])
          (log w) (auth w).

(** The callback given to [onAuthStateChange]. *)
Definition onAuthStateChange_callback (currentSession : option Session)
  : Async unit :=
  setSession currentSession;;
  setUser (session_user <$> currentSession);;
  match currentSession with
  | Some s =>
      fetchOrCreateProfile (user_id (session_user s)) (user_email (session_user s));;
      Return tt
  | None =>
      setProfile None;;
      setUserType None
  end.

(** The async function [initializeAuth]; its promise resolves to the
    cleanup closure. *)
Definition initializeAuth : Async (option Cleanup) :=
  await currentSession := auth_getSession in
  setSession currentSession;;
  setUser (session_user <$> currentSession);;
  (match currentSession with
   | Some s =>
       fetchOrCreateProfile (user_id (session_user s)) (user_email (session_user s));;
       Return tt
   | None => Return tt
   end);;
  setIsInitialized true;;
  setIsLoading false;;
  await subscription := auth_onAuthStateChange in
  Return (Some (Unsubscribe subscription)).

(** A React effect: the task its callback starts, and the value the
    callback returns, which React keeps and calls at teardown. *)
Record Effect := mkEffect {
  started : Async (option Cleanup);
  returned : option Cleanup
}.

(** [useEffect(() => { const initializeAuth = async () => {...};
    initializeAuth(); }, [fetchOrCreateProfile])]: the callback starts the
    task and falls off its end, so it returns [undefined]; what the task's
    promise resolves to is dropped. *)
Definition auth_effect : Effect := mkEffect initializeAuth None.

(** Teardown of a component: React calls the cleanup the effect returned,
    if it returned one. *)
Definition teardown (e : Effect) (w : World) : World :=
  match returned e with
  | Some (Unsubscribe h) => unsubscribe h w
  | None => w
  end.

(** The whole life of the component: mount, the started task runs to its
    end, then teardown. *)
Definition lifetime (e : Effect) (w : World) : World :=
  teardown e (snd (run (started e) w)).

(** [supabase.auth.signUp({email, password})] *)
Definition auth_signUp (email password : string) : Async (Response (option User)) :=
  io (fun w => (auth_signUp_result w email password, w)).

(** [signUp]: creates the credentials, then provisions the profile with the
    requested role.  (Toasts and console output are not modelled.) *)
Definition signUp (email password : string) (userType : Role) : Async unit :=
  setIsLoading true;;
  await r := auth_signUp email password in
  (match r with
   | Ok (Some u) =>
       await newProfile := createProfile (user_id u) email userType in
       Return tt
   | _ => Return tt
   end);;
  setIsLoading false.

(** ** Navigation *)

(** [s.replace('#', '')]: drops the first [#]. *)
Fixpoint drop_first_hash (s : string) : string :=
  match s with
  | EmptyString => EmptyString
  | String c r =>
      if Ascii.eqb c "#"%char then r else String c (drop_first_hash r)
  end.

(** [window.location.hash.replace('#', '') || '/'] *)
Definition pathname_of (hash : string) : string :=
  let hashPath := drop_first_hash hash in
  if bool_decide (hashPath = "") then "/" else hashPath.

(** [pathname.startsWith(p)] *)
Definition startsWith (pathname p : string) : bool := String.prefix p pathname.

(** The body of the navigation effect; [Some target] stands for
    [navigate(target, {replace: true})]. *)
Definition navigation_intent (isInitialized isLoading isAuthenticated : bool)
  (userType : UserType) (pathname : string) : option string :=
  if negb isInitialized || isLoading then None
  else if negb isAuthenticated
          && negb (startsWith pathname "/register")
          && negb (startsWith pathname "/forgot-password")
          && negb (bool_decide (pathname = "/"))
  then Some "/"
  else
    match userType with
    | Some role =>
        if isAuthenticated && bool_decide (pathname = "/")
        then Some ("/" +:+ role_str role)
        else if isAuthenticated then
          match role with
          | admin =>
              if negb (startsWith pathname "/admin") then Some "/admin" else None
          | customer =>
              if negb (startsWith pathname "/customer") then Some "/customer" else None
          end
        else None
    | None => None
    end.

(** [isAuthenticated = !!session && !!user] *)
Definition isAuthenticated (a : AuthState) : bool :=
  bool_decide (is_Some (session a)) && bool_decide (is_Some (user a)).

(** The navigation effect as the component runs it. *)
Definition navigation_effect (a : AuthState) (hash : string) : option string :=
  navigation_intent (isInitialized a) (isLoading a) (isAuthenticated a)
    (userType a) (pathname_of hash).

(** The navigation rule as the specification words it: the public paths
    are exactly root, register and forgot-password. *)
Definition spec_navigation_intent (authenticated : bool) (role : UserType)
  (path : string) : option string :=
  if negb authenticated then
    if bool_decide (path = "/") || bool_decide (path = "/register")
       || bool_decide (path = "/forgot-password")
    then None else Some "/"
  else
    match role with
    | Some r =>
        if bool_decide (path = "/") || negb (startsWith path ("/" +:+ role_str r))
        then Some ("/" +:+ role_str r)
        else None
    | None => None
    end.

(** ** Sample data *)

Definition no_faults : nat -> Request -> option PgError := fun _ _ => None.

Definition initial_auth : AuthState := mkAuth None None None None true false.

Definition alice : Profile.t :=
  Profile.mk "u-alice" "alice@example.org" (Some "Alice") None customer 1 1.
Definition bob : Profile.t :=
  Profile.mk "u-bob" "bob@example.org" None None customer 2 2.
Definition root_admin : Profile.t :=
  Profile.mk "u-root" "root@example.org" (Some "Root") None admin 0 0.

Definition ticket1 : Ticket.t :=
  Ticket.mk "t1" "Printer on fire" "u-alice" open high "hardware" (Some "u-root") 3 9.
Definition ticket2 : Ticket.t :=
  Ticket.mk "t2" "Password reset" "u-bob" pending low "account" None 4 7.
Definition ticket3 : Ticket.t :=
  Ticket.mk "t3" "Invoice missing" "u-alice" resolved medium "billing" None 5 8.

Definition message1 : Message.t := Message.mk "m1" "t1" "u-alice" "It burns." 3.
Definition message2 : Message.t := Message.mk "m2" "t2" "u-bob" "I forgot it." 4.
Definition message3 : Message.t := Message.mk "m3" "t1" "u-root" "Use water." 6.
Definition message4 : Message.t := Message.mk "m4" "t1" "u-alice" "Thanks." 9.

Definition attachment1 : Attachment.t :=
  Attachment.mk "a1" "m1" "fire.png" "m1/fire.png" 2048 3.

Definition sample_db : Db :=
  mkDb [root_admin; alice; bob]
       [ticket2; ticket1; ticket3]
       [message4; message1; message2; message3]
       [attachment1].

Definition sample_uuid (n : nat) : string :=
  match n with
  | O => "id-0" | 1%nat => "id-1" | 2%nat => "id-2" | 3%nat => "id-3"
  | _ => "id-n"
  end.

Definition sample_world : World :=
  mkWorld sample_db 10 no_faults sample_uuid (Some "u-alice") None
          (fun _ _ => Ok None) [] [] [] initial_auth.

(** A world whose oracle fails exactly the round trip made at tick [n]. *)
Definition failing_at (n : nat) (w : World) : World :=
  mkWorld (db w) (tick w)
          (fun k rq => if bool_decide (k = n) then Some (mkErr "500") else fault w k rq)
          (uuid w) (auth_user w) (auth_session w) (auth_signUp_result w)
          (listeners w) (unsubscribed w) (log w) (auth w).

(** A world in which nobody is signed in for [auth.getUser()]. *)
Definition signed_out (w : World) : World :=
  mkWorld (db w) (tick w) (fault w) (uuid w) None (auth_session w)
          (auth_signUp_result w) (listeners w) (unsubscribed w) (log w) (auth w).

(** A world in which the auth service has just created Alice's
    credentials again. *)
Definition signup_world : World :=
  mkWorld sample_db 10 no_faults sample_uuid None None
          (fun _ _ => Ok (Some (mkUser "u-alice" (Some "alice@example.org"))))
          [] [] [] initial_auth.

(** The payload [{updated_at: ts}] of the no-field update. *)
Definition only_updated_at (ts : Z) : TicketUpdates.t :=
  TicketUpdates.mk None None None None None None None None (Some ts).

(** What the customer lookup of [getTickets] yields for the fetched
    tickets [ts]: nothing when the request fails. *)
Definition customer_lookup (w : World) (ts : list Ticket.t) : gmap string Profile.t :=
  let customerIds := distinct (map Ticket.customer_id ts) in
  match fault w (S (tick w)) (SelectProfilesInId customerIds) with
  | Some _ => ∅
  | None => profile_map (filter (fun p => Profile.id p ∈ customerIds) (profiles (db w)))
  end.

(** Every step of a task relates the world before it to the world after. *)
Fixpoint preserves {A} (R : World -> World -> Prop) (m : Async A) : Prop :=
  match m with
  | Return _ => True
  | Step io k => (∀ w, R w (snd (io w))) ∧ (∀ x, preserves R (k x))
  end.

(** The store and the oracle are the same. *)
Definition same_store (w w' : World) : Prop :=
  db w' = db w ∧ fault w' = fault w.

(** The auth-change subscriptions are the same. *)
Definition same_subscriptions (w w' : World) : Prop :=
  listeners w' = listeners w ∧ unsubscribed w' = unsubscribed w.

(** *** Concurrent profile resolution: what each task may assume of the
    others *)

(** The backend answers every request (no transient failure). *)
Definition reliable (w : World) : Prop := ∀ n rq, fault w n rq = None.

(** At most one profile row carries the id. *)
Definition provisioned_once (userId : string) (w : World) : Prop :=
  (length (profile_rows userId (db w)) <= 1)%nat.

(** Once the row of [userId] is there, it stays as it is. *)
Definition row_kept (userId : string) (w w' : World) : Prop :=
  ∀ p, profile_rows userId (db w) = [p] -> profile_rows userId (db w') = [p].

(** What the steps of the other tasks may have done between two steps of a
    task, and what each own step guarantees in turn. *)
Definition rely (userId : string) (w w' : World) : Prop :=
  row_kept userId w w' ∧ reliable w' ∧ provisioned_once userId w'.

(** [wp userId m Q w]: from [w] on, with other tasks running in between as
    [rely] allows, every step of [m] keeps [rely], and when [m] returns [a]
    then [Q a] holds from that world on. *)
Fixpoint wp {A} (userId : string) (m : Async A) (Q : A -> World -> Prop)
  (w : World) : Prop :=
  match m with
  | Return a => ∀ w', rely userId w w' -> Q a w'
  | Step io k =>
      ∀ w', rely userId w w' ->
        rely userId w' (snd (io w')) ∧ wp userId (k (fst (io w'))) Q (snd (io w'))
  end.

(** The outcome of a resolution: the profile adopted is the stored row. *)
Definition resolved_to (userId : string) (r : option Profile.t) (w : World) : Prop :=
  ∃ p, r = Some p ∧ profile_rows userId (db w) = [p].

(** A schedule in which both resolutions pass their existence checks before
    either inserts. *)
Definition racing_schedule : list bool :=
  [true; true; true; false; false; false; true; false].

(** ** More of [src/lib/api.ts]: [getMessages] *)

Definition getMessages (ticketId : string) : Async (list EnrichedMessage.t) :=
  await r := messages_select ticketId in
  match r with
  | Err _ => Return []
  | Ok data =>
      await senderProfiles := fetch_sender_profiles (Some data) in
      await attachmentsByMessage := fetch_attachments (Some data) in
      Return (map (decorate_message senderProfiles attachmentsByMessage) data)
  end.

(** The row the last-message query of [getTickets] yields for a ticket. *)
Definition last_message_of (d : Db) (ticketId : string) : option LastMessage.t :=
  head (map (join_sender d)
          (take 1 (merge_sort newest_message_first
                     (filter (fun m => Message.ticket_id m = ticketId)
                             (messages d))))).

(** The payload [{status: s}]. *)
Definition status_update (s : TicketStatus) : TicketUpdates.t :=
  TicketUpdates.mk None None None (Some s) None None None None None.

(** The requests [getTickets] issues after the ticket query returned the
    non-empty list [ts]. *)
Definition decoration_requests (ts : list Ticket.t) : list Request :=
  [SelectProfilesInId (distinct (map Ticket.customer_id ts))]
  ++ match distinct (omap assignee ts) with
     | [] => []
     | a :: l => [SelectProfilesInId (a :: l)]
     end
  ++ [SelectMessageTicketIds (map Ticket.id ts)]
  ++ map SelectLastMessage (map Ticket.id ts).

(** The coordinator's identity: everything of its state but the two
    progress flags. *)
Definition same_identity (w w' : World) : Prop :=
  session (auth w') = session (auth w) ∧ user (auth w') = user (auth w) ∧
  profile (auth w') = profile (auth w) ∧ userType (auth w') = userType (auth w).

(** The profile rows are those of before, followed by new rows that all
    satisfy [P]. *)
Definition profiles_grow (P : Profile.t -> Prop) (w w' : World) : Prop :=
  ∃ l, profiles (db w') = profiles (db w) ++ l ∧ Forall P l.

(** ** The route guard ([ProtectedRoute]) *)

Inductive Rendered := Spinner | NavigateTo (to : string) | Children.

(** [`${userType}`] *)
Definition userType_str (t : UserType) : string :=
  match t with Some r => role_str r | None => "null" end.

Definition ProtectedRoute (isAuthenticated : bool) (userType : UserType)
  (isLoading : bool) (requiredUserType : option Role) : Rendered :=
  if isLoading then Spinner
  else if negb isAuthenticated then NavigateTo "/"
  else
    match requiredUserType with
    | Some required =>
        if bool_decide (userType ≠ Some required)
        then NavigateTo ("/" +:+ userType_str userType)
        else Children
    | None => Children
    end.

(** ** The ticket list view ([TicketList]) *)

(** [prev.includes(ticketId) ? prev.filter(id => id !== ticketId)
    : [...prev, ticketId]] *)
Definition toggleSelectTicket (prev : list string) (ticketId : string) : list string :=
  if bool_decide (ticketId ∈ prev)
  then filter (fun id => id ≠ ticketId) prev
  else prev ++ [ticketId].

Definition selectAll (selectedTickets : list string) (tickets : list EnrichedTicket.t)
  : list string :=
  if bool_decide (length selectedTickets = length tickets)
  then []
  else map (fun ticket => Ticket.id (EnrichedTicket.row ticket)) tickets.

(** [Array.prototype.sort(compare)]: a stable sort; [a] stays before [b]
    when [compare(a, b) <= 0]. *)
Fixpoint sort_insert {A} (compare : A -> A -> Z) (x : A) (l : list A) : list A :=
  match l with
  | [] => [x]
  | y :: r =>
      if bool_decide (compare x y ≤ 0) then x :: y :: r
      else y :: sort_insert compare x r
  end.

Definition js_sort {A} (compare : A -> A -> Z) (l : list A) : list A :=
  foldr (sort_insert compare) [] l.

Definition priorityOrder (p : Priority) : Z :=
  match p with high => 0 | medium => 1 | low => 2 end.

Definition statusOrder (s : TicketStatus) : Z :=
  match s with open => 0 | pending => 1 | resolved => 2 end.

(** The comparator of [sortedTickets] for a [sortBy] option. *)
Definition compare_tickets (sortBy : string) (a b : EnrichedTicket.t) : Z :=
  if bool_decide (sortBy = "date") then
    Ticket.updated_at (EnrichedTicket.row b) - Ticket.updated_at (EnrichedTicket.row a)
  else if bool_decide (sortBy = "priority") then
    priorityOrder (Ticket.priority (EnrichedTicket.row a))
    - priorityOrder (Ticket.priority (EnrichedTicket.row b))
  else if bool_decide (sortBy = "status") then
    statusOrder (Ticket.status (EnrichedTicket.row a))
    - statusOrder (Ticket.status (EnrichedTicket.row b))
  else 0.

Definition sortedTickets (sortBy : string) (tickets : list EnrichedTicket.t)
  : list EnrichedTicket.t :=
  js_sort (compare_tickets sortBy) tickets.

(** The order the comparator stands for. *)
Definition before (sortBy : string) (a b : EnrichedTicket.t) : Prop :=
  compare_tickets sortBy a b ≤ 0.

(** ** The ticket row of the list ([TicketItem]) *)

(** ** Replying in a thread ([TicketThread]) *)

Section Reply.
(** [String.prototype.trim] *)
Context (trim : string -> string).

(** [handleSubmitReply], as far as the backend sees it: the local display
    state of the component (its copy of the ticket, the reply box, the
    sending flag, toasts) is not modelled. [ticket] is the component's copy
    of the ticket, whose status decides the reopening. *)
Definition handleSubmitReply (ticketId : option string) (user : option User)
  (replyContent : string) (ticket : option EnrichedTicket.t) (userType : Role)
  : Async unit :=
  match ticketId, user with
  | Some tid, Some u =>
      if negb (truthy ticketId) || negb (truthy (Some (trim replyContent)))
      then Return tt
      else
        (if bool_decide (Ticket.status ∘ EnrichedTicket.row <$> ticket = Some resolved)
            && bool_decide (userType = customer)
         then
           await _ := updateTicket tid (status_update open) in
           Return tt
         else Return tt);;
        await message := createMessage tid (user_id u) replyContent in
        Return tt
  | _, _ => Return tt
  end.

End Reply.

(** ** Profile updates and attachments

    [updateProfile] and [uploadAttachment] talk to parts of the backend the
    functions above do not use: the [update] of [profiles], the blob store
    and the [insert] of [attachments].  They run over a [Backend], a
    [World] with the blob store and an oracle for these requests. *)

Module ProfileUpdates.
Record t := mk {
  id : string;
  email : option string;
  full_name : option (option string);
  avatar_url : option (option string);
  user_type : option Role;
  created_at : option Z;
  updated_at : option Z
}.
(** The row after [update(u)]. *)
Definition apply (u : t) (r : Profile.t) : Profile.t :=
  Profile.mk (id u)
    (default (Profile.email r) (email u))
    (default (Profile.full_name r) (full_name u))
    (default (Profile.avatar_url r) (avatar_url u))
    (default (Profile.user_type r) (user_type u))
    (default (Profile.created_at r) (created_at u))
    (default (Profile.updated_at r) (updated_at u)).
End ProfileUpdates.

(** A browser [File]. *)
Record File := mkFile { file_name : string; file_size : Z; file_content : string }.

Inductive MoreRequest :=
| UpdateProfile (updates : ProfileUpdates.t)
| StorageUpload (bucket path : string)
| InsertAttachment (messageId name filePath : string) (size : Z).

Record Backend := mkBackend {
  world : World;
  (** the objects of the bucket [attachments], by path *)
  blobs : list (string * File);
  more_fault : nat -> MoreRequest -> option PgError;
  more_log : list MoreRequest
}.

Definition set_world (w : World) (b : Backend) : Backend :=
  mkBackend w (blobs b) (more_fault b) (more_log b).

(** One more round trip has been made, for a request of this part. *)
Definition more_advance (rq : MoreRequest) (b : Backend) : Backend :=
  let w := world b in
  mkBackend
    (mkWorld (db w) (S (tick w)) (fault w) (uuid w) (auth_user w) (auth_session w)
             (auth_signUp_result w) (listeners w) (unsubscribed w) (log w) (auth w))
    (blobs b) (more_fault b) (more_log b ++ [rq]).

Definition more_round_trip {A} (rq : MoreRequest)
  (exec : Backend -> Response A * Backend) (b : Backend) : Response A * Backend :=
  match more_fault b (tick (world b)) rq with
  | Some e => (Err e, more_advance rq b)
  | None => let '(r, b') := exec b in (r, more_advance rq b')
  end.




(** [supabase.storage.from('attachments').upload(filePath, file)]: without
    the [upsert] option the bucket refuses a path it already holds. *)
Definition storage_upload (filePath : string) (file : File)
  : Backend -> Response unit * Backend :=
  more_round_trip (StorageUpload "attachments" filePath)
    (fun b =>
       if bool_decide (filePath ∈ map fst (blobs b))
       then (Err (mkErr "Duplicate"), b)
       else (Ok tt, mkBackend (world b) (blobs b ++ [(filePath, file)])
                      (more_fault b) (more_log b))).

(** [from('attachments').insert({message_id, name, file_path, size})
    .select().single()] *)
Definition attachments_insert (messageId name filePath : string) (size : Z)
  : Backend -> Response Attachment.t * Backend :=
  more_round_trip (InsertAttachment messageId name filePath size)
    (fun b =>
       let w := world b in
       let d := db w in
       let a := Attachment.mk (uuid w (tick w)) messageId name filePath size (now w) in
       (Ok a,
        set_world (set_db (mkDb (profiles d) (tickets d) (messages d)
                             (attachments d ++ [a])) w) b)).

Definition uploadAttachment (file : File) (messageId : string)
  (b : Backend) : option Attachment.t * Backend :=
  let filePath := messageId +:+ "/" +:+ file_name file in
  let '(up, b1) := storage_upload filePath file b in
  match up with
  | Err _ => (None, b1)
  | Ok _ =>
      let '(r, b2) :=
        attachments_insert messageId (file_name file) filePath (file_size file) b1 in
      match r with
      | Err _ => (None, b2)
      | Ok data => (Some data, b2)
      end
  end.

(** ** More sample data *)


Definition alice_session : Session :=
  mkSession (mkUser "u-alice" (Some "alice@example.org")).

(** The coordinator once ready, nobody signed in. *)
Definition ready_world : World :=
  mkWorld sample_db 10 no_faults sample_uuid None None
          (fun _ _ => Ok None) [] [] [] (mkAuth None None None None false true).

(** A task issues the same table requests from every world. *)
Definition issues {A} (m : Async A) (rqs : list Request) : Prop :=
  ∀ w, log (snd (run m w)) = log w ++ rqs.

(** What [getTickets] makes of a fetched ticket when no request fails: the
    lookups over the store [d] for the fetched tickets [ts]. *)
Definition full_decoration (d : Db) (ts : list Ticket.t) : Ticket.t -> EnrichedTicket.t :=
  let customerIds := distinct (map Ticket.customer_id ts) in
  let assignedToIds := distinct (omap assignee ts) in
  let ticketIds := map Ticket.id ts in
  decorate_ticket
    (profile_map (filter (fun p => Profile.id p ∈ customerIds) (profiles d)))
    (profile_map (filter (fun p => Profile.id p ∈ assignedToIds) (profiles d)))
    (count_messages
       (map Message.ticket_id
          (filter (fun m => Message.ticket_id m ∈ ticketIds) (messages d))))
    (foldl (fun m tid =>
              match last_message_of d tid with
              | Some x => <[tid := x]> m
              | None => m
              end) ∅ ticketIds).

(** The thread of a ticket as [getTicket] and [getMessages] assemble it
    when no request fails: its messages, oldest first, each with the sender
    and attachment lookups over the store [d]. *)
Definition thread_of (d : Db) (ticketId : string) : list EnrichedMessage.t :=
  let ms := ticket_messages ticketId d in
  let senderIds := distinct (map Message.sender_id ms) in
  let messageIds := map Message.id ms in
  map (decorate_message
         (profile_map (filter (fun p => Profile.id p ∈ senderIds) (profiles d)))
         (group_attachments
            (filter (fun a => Attachment.message_id a ∈ messageIds) (attachments d))))
      ms.

(** The ticket row with a new status and a new [updated_at]. *)
Definition with_status (t : Ticket.t) (s : TicketStatus) (ts : Z) : Ticket.t :=
  Ticket.mk (Ticket.id t) (Ticket.subject t) (Ticket.customer_id t) s
    (Ticket.priority t) (Ticket.category t) (Ticket.assigned_to t)
    (Ticket.created_at t) ts.

(** Of the coordinator's state, only the loading flag may differ. *)
Definition only_loading_differs (w w' : World) : Prop :=
  same_identity w w' ∧ isInitialized (auth w') = isInitialized (auth w).

(** * Properties *)

(** ** Running tasks *)

Lemma run_bind {A B} (m : Async A) (f : A -> Async B) (w : World) :
  run (bind m f) w = let '(a, w') := run m w in run (f a) w'.
Proof.
  revert w. induction m as [a | X step k IH]; intros w; simpl.
  - reflexivity.
  - destruct (step w) as [x w']. apply IH.
Qed.

Lemma run_io {X} (f : World -> X * World) (w : World) : run (io f) w = f w.
Proof. unfold io. simpl. by destruct (f w). Qed.

Lemma round_trip_ok {A} rq (exec : World -> Response A * Db) w :
  fault w (tick w) rq = None ->
  round_trip rq exec w = (fst (exec w), advance rq (set_db (snd (exec w)) w)).
Proof. intros H. unfold round_trip. rewrite H. by destruct (exec w). Qed.

Lemma round_trip_fail {A} rq (exec : World -> Response A * Db) w e :
  fault w (tick w) rq = Some e ->
  round_trip rq exec w = (Err e, advance rq w).
Proof. intros H. unfold round_trip. by rewrite H. Qed.

Lemma set_db_same w : set_db (db w) w = w.
Proof. by destruct w. Qed.

Lemma query_ok {A} rq (rows : Db -> A) w :
  fault w (tick w) rq = None ->
  query rq rows w = (Ok (rows (db w)), advance rq w).
Proof.
  intros H. unfold query. rewrite round_trip_ok by done. simpl.
  by rewrite set_db_same.
Qed.

Lemma query_fail {A} rq (rows : Db -> A) w e :
  fault w (tick w) rq = Some e ->
  query rq rows w = (Err e, advance rq w).
Proof. intros H. unfold query. by rewrite round_trip_fail with (e := e). Qed.

(** A read never changes the store, the oracle or the clock's owner. *)
Lemma query_frame {A} rq (rows : Db -> A) w :
  snd (query rq rows w) = advance rq w.
Proof.
  destruct (fault w (tick w) rq) as [e|] eqn:H.
  - by rewrite query_fail with (e := e).
  - by rewrite query_ok.
Qed.

Lemma query_result {A} rq (rows : Db -> A) w :
  fst (query rq rows w) =
  match fault w (tick w) rq with Some e => Err e | None => Ok (rows (db w)) end.
Proof.
  destruct (fault w (tick w) rq) as [e|] eqn:H.
  - by rewrite query_fail with (e := e).
  - by rewrite query_ok.
Qed.

(** ** Profiles *)

Lemma run_getProfile userId w :
  run (getProfile userId) w =
  (match fault w (tick w) (SelectProfilesEqId userId) with
   | Some _ => None
   | None => head (profile_rows userId (db w))
   end, advance (SelectProfilesEqId userId) w).
Proof.
  unfold getProfile, profiles_eq_id. rewrite run_bind, run_io.
  destruct (fault w (tick w) (SelectProfilesEqId userId)) as [e|] eqn:H.
  - by rewrite query_fail with (e := e).
  - rewrite query_ok by done. by destruct (profile_rows userId (db w)).
Qed.

(** C10 (amended). When the profile row of [userId] already exists and the
    existence check reaches the backend, [createProfile] issues a single select and
    nothing else, leaves the store as it is, and returns the stored row, so
    the role of the result is the stored role whatever [userType] was
    asked for; a sign-up asking for [admin] on top of an existing customer
    profile leaves that profile a customer. *)
Theorem createProfile_existing_row_untouched
  (w : World) (userId email : string) (userType : Role)
  (p : Profile.t) (rest : list Profile.t) :
  fault w (tick w) (SelectProfilesEqId userId) = None ->
  profile_rows userId (db w) = p :: rest ->
  (let '(r, w') := run (createProfile userId email userType) w in
   r = Some p ∧ db w' = db w ∧
   log w' = log w ++ [SelectProfilesEqId userId]) ∧
  (fst (run (createProfile "u-alice" "alice@example.org" admin) sample_world)
     = Some alice ∧
   Profile.user_type alice = customer ∧
   db (snd (run (signUp "alice@example.org" "secret" admin) signup_world))
     = db signup_world).
Proof.
  intros Hok Hrows. split.
  - unfold createProfile. rewrite run_bind, run_getProfile, Hok, Hrows. simpl.
    auto.
  - vm_compute. auto.
Qed.

Lemma createProfile_existing_row_untouched_witness :
  (let '(r, w') := run (createProfile "u-bob" "bob@example.org" admin) sample_world in
   r = Some bob ∧ db w' = db sample_world ∧
   log w' = log sample_world ++ [SelectProfilesEqId "u-bob"]) ∧
  (fst (run (createProfile "u-alice" "alice@example.org" admin) sample_world)
     = Some alice ∧
   Profile.user_type alice = customer ∧
   db (snd (run (signUp "alice@example.org" "secret" admin) signup_world))
     = db signup_world).
Proof.
  apply (createProfile_existing_row_untouched sample_world "u-bob"
           "bob@example.org" admin bob []); reflexivity.
Defined.

(** C10, as first stated, without the condition on the existence check:
    Alice's row is stored, but the select that looks for it fails, so
    [createProfile] goes on to send the insert.  The primary key rejects it
    and the store stays as it is; the result is the re-fetched row, or
    nothing when the re-fetch fails as well. *)
Lemma createProfile_existing_row_insert_attempted :
  let w1 := failing_at 10 sample_world in
  let w2 := failing_at 12 (failing_at 10 sample_world) in
  let requests := [SelectProfilesEqId "u-alice";
                   InsertProfile "u-alice" "alice@example.org" admin;
                   SelectProfilesEqId "u-alice"] in
  profile_rows "u-alice" (db sample_world) = [alice] ∧
  (fst (run (createProfile "u-alice" "alice@example.org" admin) w1) = Some alice ∧
   log (snd (run (createProfile "u-alice" "alice@example.org" admin) w1))
   = log w1 ++ requests) ∧
  (fst (run (createProfile "u-alice" "alice@example.org" admin) w2) = None ∧
   log (snd (run (createProfile "u-alice" "alice@example.org" admin) w2))
   = log w2 ++ requests ∧
   db (snd (run (createProfile "u-alice" "alice@example.org" admin) w2)) = db w2).
Proof. vm_compute. repeat split. Qed.

(** ** Creating tickets and messages *)

Lemma run_messages_insert ticketId senderId content w :
  run (messages_insert ticketId senderId content) w =
  match fault w (tick w) (InsertMessage ticketId senderId content) with
  | Some e => (Err e, advance (InsertMessage ticketId senderId content) w)
  | None =>
      (Ok tt,
       advance (InsertMessage ticketId senderId content)
         (set_db (add_message (new_message ticketId senderId content w) (db w)) w))
  end.
Proof.
  unfold messages_insert. rewrite run_io.
  destruct (fault w (tick w) _) as [e|] eqn:H.
  - by rewrite round_trip_fail with (e := e).
  - by rewrite round_trip_ok.
Qed.

(** C4. Once the ticket insert succeeds, [createTicket] returns the stored
    ticket, whose status is [open] and whose other columns are the
    arguments; the ticket is in the store afterwards whatever happens to the
    initial message, and when the insert of that message fails no message
    has been stored. *)
Theorem createTicket_best_effort
  (w : World) (subject customerId : string) (priority : Priority)
  (category initialMessage : string) :
  fault w (tick w) (InsertTicket subject customerId priority category open) = None ->
  ∃ (t : Ticket.t) (w' : World),
    run (createTicket subject customerId priority category initialMessage) w
      = (Some t, w') ∧
    Ticket.status t = open ∧
    t = Ticket.mk (uuid w (tick w)) subject customerId open priority category
          None (now w) (now w) ∧
    tickets (db w') = tickets (db w) ++ [t] ∧
    (∀ e, fault w (S (tick w)) (InsertMessage (Ticket.id t) customerId initialMessage)
            = Some e ->
          messages (db w') = messages (db w)).
Proof.
  intros Hok. unfold createTicket, tickets_insert.
  rewrite run_bind, run_io, round_trip_ok by done. cbn [fst snd].
  rewrite run_bind. unfold truthy.
  destruct (negb (bool_decide (initialMessage = ""))) eqn:Hmsg.
  - rewrite run_bind, run_messages_insert. cbn [Ticket.id tick advance set_db fault].
    destruct (fault w (S (tick w)) _) as [e|] eqn:Hf; simpl.
    + eexists _, _. repeat split; try reflexivity.
    + eexists _, _. repeat split; try reflexivity. intros e He. simpl in He. congruence.
  - simpl. eexists _, _. repeat split; try reflexivity.
Qed.

Lemma createTicket_best_effort_witness :
  ∃ (t : Ticket.t) (w' : World),
    run (createTicket "No sound" "u-bob" medium "hardware" "It is silent.")
        (failing_at 11 sample_world) = (Some t, w') ∧
    Ticket.status t = open ∧
    t = Ticket.mk "id-n" "No sound" "u-bob" open medium "hardware" None 10 10 ∧
    tickets (db w') = tickets sample_db ++ [t] ∧
    (∀ e, fault (failing_at 11 sample_world) 11%nat
            (InsertMessage (Ticket.id t) "u-bob" "It is silent.") = Some e ->
          messages (db w') = messages sample_db).
Proof.
  apply (createTicket_best_effort (failing_at 11 sample_world)
           "No sound" "u-bob" medium "hardware" "It is silent.").
  reflexivity.
Defined.

Lemma run_updateTicket ticketId updates w :
  run (updateTicket ticketId updates) w =
  let rq := UpdateTicket ticketId (TicketUpdates.with_updated_at updates (now w)) in
  match fault w (tick w) rq with
  | Some e => (None, advance rq w)
  | None =>
      match ticket_rows ticketId (db w) with
      | [t] =>
          let u := TicketUpdates.with_updated_at updates (now w) in
          (Some (TicketUpdates.apply u t),
           advance rq
             (set_db (mkDb (profiles (db w))
                        (map (fun r => if bool_decide (Ticket.id r = ticketId)
                                       then TicketUpdates.apply u r else r)
                             (tickets (db w)))
                        (messages (db w)) (attachments (db w))) w))
      | _ => (None, advance rq w)
      end
  end.
Proof.
  unfold updateTicket, Date_now, tickets_update.
  rewrite run_bind, run_io. rewrite run_bind, run_io. cbv zeta.
  destruct (fault w (tick w) _) as [e|] eqn:H.
  - by rewrite round_trip_fail with (e := e).
  - rewrite round_trip_ok by done.
    destruct (ticket_rows ticketId (db w)) as [|t [|t' l]]; simpl;
      by rewrite ?set_db_same.
Qed.

Lemma only_updated_at_apply ts t :
  TicketUpdates.apply (only_updated_at ts) t =
  Ticket.mk (Ticket.id t) (Ticket.subject t) (Ticket.customer_id t)
    (Ticket.status t) (Ticket.priority t) (Ticket.category t)
    (Ticket.assigned_to t) (Ticket.created_at t) ts.
Proof. reflexivity. Qed.

(** C5. Once the message insert succeeds, [createMessage] issues exactly one
    more request, an update of the ticket whose payload is the single field
    [updated_at], and returns the stored message whether or not that update
    succeeds; the update touches no message. *)
Theorem createMessage_refresh_is_best_effort
  (w : World) (ticketId senderId content : string) :
  fault w (tick w) (InsertMessage ticketId senderId content) = None ->
  ∃ (m : Message.t) (w' : World),
    run (createMessage ticketId senderId content) w = (Some m, w') ∧
    m = new_message ticketId senderId content w ∧
    messages (db w') = messages (db w) ++ [m] ∧
    log w' = log w ++ [InsertMessage ticketId senderId content;
                       UpdateTicket ticketId (only_updated_at (now w + 1))] ∧
    (∀ e, fault w (S (tick w))
            (UpdateTicket ticketId (only_updated_at (now w + 1))) = Some e ->
          tickets (db w') = tickets (db w)).
Proof.
  intros Hok. unfold createMessage, messages_insert_single.
  rewrite run_bind, run_io, round_trip_ok by done. cbn [fst snd].
  rewrite run_bind, run_updateTicket. cbv zeta.
  set (w1 := advance _ _).
  assert (Hnow : now w1 = now w + 1) by (unfold now; simpl; lia).
  assert (Hpay : TicketUpdates.with_updated_at TicketUpdates.empty (now w1)
                 = only_updated_at (now w + 1)) by (by rewrite Hnow).
  rewrite Hpay.
  assert (Htick : tick w1 = S (tick w)) by done.
  assert (Hfault : fault w1 = fault w) by done.
  rewrite Htick, Hfault.
  destruct (fault w (S (tick w)) _) as [e|] eqn:Hf.
  - eexists _, _. split; [reflexivity|]. simpl. rewrite <- app_assoc.
    repeat split; done.
  - destruct (ticket_rows ticketId (db w1)) as [|t [|t' l]]; simpl;
      eexists _, _; (split; [reflexivity|]); simpl; rewrite <- app_assoc;
      repeat split; done.
Qed.

Lemma createMessage_refresh_is_best_effort_witness :
  ∃ (m : Message.t) (w' : World),
    run (createMessage "t2" "u-bob" "Any news?") (failing_at 11 sample_world)
      = (Some m, w') ∧
    m = new_message "t2" "u-bob" "Any news?" (failing_at 11 sample_world) ∧
    messages (db w') = messages sample_db ++ [m] ∧
    log w' = [InsertMessage "t2" "u-bob" "Any news?";
              UpdateTicket "t2" (only_updated_at 11)] ∧
    (∀ e, fault (failing_at 11 sample_world) 11%nat
            (UpdateTicket "t2" (only_updated_at 11)) = Some e ->
          tickets (db w') = tickets sample_db).
Proof.
  apply (createMessage_refresh_is_best_effort (failing_at 11 sample_world)
           "t2" "u-bob" "Any news?").
  reflexivity.
Defined.

(** ** The ticket list *)

Lemma decorate_ticket_row cm am mm lm t :
  EnrichedTicket.row (decorate_ticket cm am mm lm t) = t.
Proof. reflexivity. Qed.

Lemma map_decorate_rows cm am mm lm ts :
  map EnrichedTicket.row (map (decorate_ticket cm am mm lm) ts) = ts.
Proof. induction ts as [|t ts IH]; simpl; by rewrite ?IH. Qed.

(** The shape of the result of [getTickets]: the fetched rows, in the order
    fetched, each decorated. *)
Lemma getTickets_result w userType status :
  let sf := status_filter status in
  let owner := owner_restriction userType w in
  match fault w (tick w) (SelectTickets sf owner) with
  | Some _ => fst (run (getTickets userType status) w) = []
  | None =>
      let ts := ticket_list sf owner (db w) in
      ∃ am mm lm,
        fst (run (getTickets userType status) w)
        = map (decorate_ticket (customer_lookup w ts) am mm lm) ts
  end.
Proof.
  intros sf owner. unfold getTickets. rewrite run_bind.
  assert (Howner :
    run (match userType with
         | Some customer =>
             await uid := auth_getUser in Return (owner_filter uid)
         | _ => Return None
         end) w = (owner, w)).
  { subst owner. unfold owner_restriction.
    destruct userType as [[|]|]; reflexivity. }
  rewrite Howner. fold sf.
  unfold tickets_select. rewrite run_bind, run_io.
  destruct (fault w (tick w) (SelectTickets sf owner)) as [e|] eqn:Hf.
  - by rewrite query_fail with (e := e).
  - rewrite query_ok by done.
    destruct (ticket_list sf owner (db w)) as [|t ts] eqn:Hts.
    + by exists ∅, ∅, ∅.
    + cbv zeta. unfold profiles_in_id at 1. rewrite run_bind, run_io.
      set (ids := distinct (map Ticket.customer_id (t :: ts))).
      assert (Hcm :
        match data_of (fst (query (SelectProfilesInId ids)
                 (fun d => filter (fun p => Profile.id p ∈ ids) (profiles d))
                 (advance (SelectTickets sf owner) w))) with
        | Some cs => profile_map cs
        | None => ∅
        end = customer_lookup w (t :: ts)).
      { rewrite query_result. unfold customer_lookup. fold ids. simpl.
        by destruct (fault w (S (tick w)) (SelectProfilesInId ids)). }
      destruct (query (SelectProfilesInId ids) _ _) as [customers w2].
      cbn [fst] in Hcm. rewrite run_bind.
      destruct (run _ w2) as [assignedProfiles w3].
      rewrite run_bind. destruct (run _ w3) as [msgs w4].
      rewrite run_bind. destruct (run _ w4) as [lm w5].
      cbn [run fst]. rewrite Hcm. eauto.
Qed.

Lemma getTickets_rows w userType status :
  map EnrichedTicket.row (fst (run (getTickets userType status) w)) =
  match fault w (tick w)
          (SelectTickets (status_filter status) (owner_restriction userType w)) with
  | Some _ => []
  | None => ticket_list (status_filter status) (owner_restriction userType w) (db w)
  end.
Proof.
  pose proof (getTickets_result w userType status) as H. cbv zeta in H.
  destruct (fault w (tick w) _) as [e|].
  - by rewrite H.
  - destruct H as (am & mm & lm & ->). apply map_decorate_rows.
Qed.

Lemma ticket_list_elem status owner d t :
  t ∈ ticket_list status owner d ↔ t ∈ tickets d ∧ ticket_matches status owner t.
Proof.
  unfold ticket_list. rewrite merge_sort_Permutation, list_elem_of_filter.
  tauto.
Qed.

(** C3. When the auth lookup resolves the (non-empty) id of customer [c],
    every ticket [getTickets] returns for role [customer] is owned by [c]. *)
Theorem getTickets_customer_sees_own_tickets_only
  (w : World) (c : string) (status : option string) (et : EnrichedTicket.t) :
  auth_user w = Some c ->
  c ≠ "" ->
  et ∈ fst (run (getTickets (Some customer) status) w) ->
  Ticket.customer_id (EnrichedTicket.row et) = c.
Proof.
  intros Hc Hne Hin.
  apply (list_elem_of_fmap_2 EnrichedTicket.row) in Hin.
  rewrite getTickets_rows in Hin.
  assert (Ho : owner_restriction (Some customer) w = Some c).
  { unfold owner_restriction, owner_filter, truthy. rewrite Hc.
    by rewrite bool_decide_eq_false_2. }
  rewrite Ho in Hin.
  destruct (fault w (tick w) _).
  - by apply elem_of_nil in Hin.
  - apply ticket_list_elem in Hin as [_ [_ Hown]]. exact Hown.
Qed.

Lemma getTickets_customer_sees_own_tickets_only_witness :
  Ticket.customer_id
    (EnrichedTicket.row
       (decorate_ticket {[ "u-alice" := alice ]} ∅ ∅ ∅ ticket3)) = "u-alice".
Proof.
  apply (getTickets_customer_sees_own_tickets_only sample_world "u-alice"
           (Some "resolved")).
  - reflexivity.
  - discriminate.
  - vm_compute. left.
Defined.

(** C8. When the ticket query succeeds and the customer-profile lookup that
    follows it fails with a backend error, [getTickets] still returns every
    fetched ticket, in the order fetched, each with no customer. *)
Theorem getTickets_customer_lookup_failure_degrades
  (w : World) (userType : UserType) (status : option string) (e : PgError) :
  let sf := status_filter status in
  let owner := owner_restriction userType w in
  let ts := ticket_list sf owner (db w) in
  let res := fst (run (getTickets userType status) w) in
  fault w (tick w) (SelectTickets sf owner) = None ->
  fault w (S (tick w)) (SelectProfilesInId (distinct (map Ticket.customer_id ts)))
    = Some e ->
  map EnrichedTicket.row res = ts ∧
  Forall (fun et => EnrichedTicket.customer et = None) res.
Proof.
  intros sf owner ts res Hok Hfail. split.
  - subst res. rewrite getTickets_rows. fold sf owner. by rewrite Hok.
  - pose proof (getTickets_result w userType status) as H. cbv zeta in H.
    fold sf owner in H. rewrite Hok in H. fold ts in H.
    destruct H as (am & mm & lm & H). subst res. rewrite H.
    apply Forall_forall. intros et Het.
    apply list_elem_of_fmap in Het as (t & -> & _).
    unfold decorate_ticket, customer_lookup. simpl.
    fold ts. by rewrite Hfail.
Qed.

Lemma getTickets_customer_lookup_failure_degrades_witness :
  map EnrichedTicket.row
    (fst (run (getTickets (Some admin) None) (failing_at 11 sample_world)))
    = [ticket1; ticket3; ticket2] ∧
  Forall (fun et => EnrichedTicket.customer et = None)
    (fst (run (getTickets (Some admin) None) (failing_at 11 sample_world))).
Proof.
  apply (getTickets_customer_lookup_failure_degrades
           (failing_at 11 sample_world) (Some admin) None (mkErr "500"));
    reflexivity.
Defined.

(** C9. When the auth lookup yields no user id, [getTickets] for role
    [customer] applies no owner restriction: the rows it returns are those
    of the unrestricted query, so every stored ticket that passes the status
    filter is returned, whoever owns it; with nobody signed in, the sample
    store yields tickets of two different customers. *)
Theorem getTickets_customer_unscoped_without_user
  (w : World) (status : option string) :
  auth_user w = None ->
  fault w (tick w) (SelectTickets (status_filter status) None) = None ->
  let rows := map EnrichedTicket.row
                (fst (run (getTickets (Some customer) status) w)) in
  owner_restriction (Some customer) w = None ∧
  rows = ticket_list (status_filter status) None (db w) ∧
  (∀ t, t ∈ tickets (db w) ->
        ticket_matches (status_filter status) None t -> t ∈ rows) ∧
  (let sample := map EnrichedTicket.row
       (fst (run (getTickets (Some customer) None) (signed_out sample_world))) in
   ticket1 ∈ sample ∧ ticket2 ∈ sample ∧
   Ticket.customer_id ticket1 ≠ Ticket.customer_id ticket2).
Proof.
  intros Hnone Hok rows.
  assert (Ho : owner_restriction (Some customer) w = None).
  { unfold owner_restriction. by rewrite Hnone. }
  assert (Hrows : rows = ticket_list (status_filter status) None (db w)).
  { subst rows. rewrite getTickets_rows, Ho. by rewrite Hok. }
  repeat split; try done.
  - intros t Hin Hm. rewrite Hrows. apply ticket_list_elem. done.
  - vm_compute. left.
  - vm_compute. do 2 right. left.
Qed.

Lemma getTickets_customer_unscoped_without_user_witness :
  let rows := map EnrichedTicket.row
                (fst (run (getTickets (Some customer) (Some "all"))
                        (signed_out sample_world))) in
  owner_restriction (Some customer) (signed_out sample_world) = None ∧
  rows = ticket_list (status_filter (Some "all")) None sample_db ∧
  (∀ t, t ∈ tickets sample_db ->
        ticket_matches (status_filter (Some "all")) None t -> t ∈ rows) ∧
  (let sample := map EnrichedTicket.row
       (fst (run (getTickets (Some customer) None) (signed_out sample_world))) in
   ticket1 ∈ sample ∧ ticket2 ∈ sample ∧
   Ticket.customer_id ticket1 ≠ Ticket.customer_id ticket2).
Proof.
  apply (getTickets_customer_unscoped_without_user (signed_out sample_world)
           (Some "all")); reflexivity.
Defined.

(** ** Frame reasoning *)

Section Frame.
Context (R : World -> World -> Prop) `{!Reflexive R} `{!Transitive R}.

Lemma preserves_run {A} (m : Async A) w : preserves R m -> R w (snd (run m w)).
Proof.
  revert w. induction m as [a | X step k IH]; intros w Hm; simpl.
  - reflexivity.
  - destruct Hm as [Hstep Hk]. specialize (Hstep w).
    destruct (step w) as [x w1]. simpl in Hstep.
    etransitivity; [exact Hstep|]. by apply IH.
Qed.

Lemma preserves_bind {A B} (m : Async A) (f : A -> Async B) :
  preserves R m -> (∀ a, preserves R (f a)) -> preserves R (bind m f).
Proof.
  induction m as [a | X step k IH]; simpl; intros Hm Hf.
  - apply Hf.
  - destruct Hm as [Hstep Hk]. split; [done|]. intros x. by apply IH.
Qed.

Lemma preserves_io {X} (f : World -> X * World) :
  (∀ w, R w (snd (f w))) -> preserves R (io f).
Proof. intros H. simpl. done. Qed.

End Frame.

#[global] Instance same_store_refl : Reflexive same_store.
Proof. by intros w. Qed.
#[global] Instance same_store_trans : Transitive same_store.
Proof. intros a b c [H1 H2] [H3 H4]. split; congruence. Qed.

Lemma query_same_store {A} rq (rows : Db -> A) : preserves same_store (io (query rq rows)).
Proof. apply preserves_io. intros w. by rewrite query_frame. Qed.

Lemma single_same_store {A} rq (rows : Db -> list A) :
  preserves same_store
    (io (round_trip rq (fun w => (single (rows (db w)), db w)))).
Proof.
  apply preserves_io. intros w. unfold round_trip.
  destruct (fault w (tick w) rq); simpl; [done|].
  by rewrite set_db_same.
Qed.

Lemma fetch_sender_profiles_same_store ms :
  preserves same_store (fetch_sender_profiles ms).
Proof.
  unfold fetch_sender_profiles. destruct ms as [[|m l]|]; try done.
  apply preserves_bind; [apply query_same_store |].
  by intros [].
Qed.

Lemma fetch_attachments_same_store ms :
  preserves same_store (fetch_attachments ms).
Proof.
  unfold fetch_attachments. destruct ms as [[|m l]|]; try done.
  apply preserves_bind; [apply query_same_store |].
  by intros [].
Qed.

(** ** A single ticket *)

#[global] Instance oldest_first_total : Total oldest_first.
Proof. intros a b. unfold oldest_first. lia. Qed.
#[global] Instance oldest_first_trans : Transitive oldest_first.
Proof. intros a b c. unfold oldest_first. lia. Qed.

Lemma map_decorate_message_rows sp am ms :
  map EnrichedMessage.row (map (decorate_message sp am) ms) = ms.
Proof. induction ms as [|m ms IH]; simpl; by rewrite ?IH. Qed.

(** The messages of the result of [getTicket] are the rows the message
    query returned at some later tick, or none when that query failed. *)
Lemma getTicket_messages w ticketId et w' :
  run (getTicket ticketId) w = (Some et, w') ->
  ∃ n, map EnrichedMessage.row (EnrichedTicket.messages et) =
       match fault w n (SelectMessages ticketId) with
       | Some _ => []
       | None => ticket_messages ticketId (db w)
       end.
Proof.
  unfold getTicket. rewrite run_bind.
  pose proof (preserves_run same_store (tickets_eq_id_single ticketId) w
                (single_same_store _ _)) as F1.
  destruct (run (tickets_eq_id_single ticketId) w) as [[ticket|e] w1]; [|done].
  rewrite run_bind.
  pose proof (preserves_run same_store
                (profiles_eq_id_single (Ticket.customer_id ticket)) w1
                (single_same_store _ _)) as F2.
  destruct (run (profiles_eq_id_single _) w1) as [c w2].
  rewrite run_bind.
  match goal with |- context [run ?m w2] =>
    assert (F3 : same_store w2 (snd (run m w2)));
    [ apply preserves_run; [apply _ ..|];
      destruct (assignee ticket); [|done];
      apply preserves_bind; [apply single_same_store | done]
    | destruct (run m w2) as [assigned w3] ]
  end.
  simpl in F1, F2, F3.
  assert (F : same_store w w3) by (do 2 (etransitivity; [eassumption|]); done).
  destruct F as [Fdb Ffault].
  rewrite run_bind. unfold messages_select. rewrite run_io.
  pose proof (query_result (SelectMessages ticketId) (ticket_messages ticketId) w3) as Q.
  destruct (query (SelectMessages ticketId) _ w3) as [mr w4]. simpl in Q.
  rewrite run_bind. destruct (run _ w4) as [sp w5].
  rewrite run_bind. destruct (run _ w5) as [am w6].
  simpl. intros [= <- <-]. simpl.
  exists (tick w3). rewrite <- Ffault, <- Fdb. subst mr.
  destruct (fault w3 (tick w3) _); simpl; [done|].
  apply map_decorate_message_rows.
Qed.

(** C6. When the ticket row is found and the message query does not fail,
    the messages of the result of [getTicket], once their decoration is
    dropped, are in ascending [created_at] order and are exactly the stored
    messages whose [ticket_id] is the requested ticket, in the order the
    backend returned them. *)
Theorem getTicket_messages_sorted_and_exact
  (w w' : World) (ticketId : string) (et : EnrichedTicket.t) :
  run (getTicket ticketId) w = (Some et, w') ->
  (∀ n, fault w n (SelectMessages ticketId) = None) ->
  let ms := map EnrichedMessage.row (EnrichedTicket.messages et) in
  StronglySorted oldest_first ms ∧
  ms ≡ₚ filter (fun m => Message.ticket_id m = ticketId) (messages (db w)) ∧
  (∀ m, m ∈ ms ↔ m ∈ messages (db w) ∧ Message.ticket_id m = ticketId) ∧
  ms = ticket_messages ticketId (db w).
Proof.
  intros Hrun Hok ms.
  destruct (getTicket_messages _ _ _ _ Hrun) as [n Hms].
  rewrite Hok in Hms. fold ms in Hms. rewrite Hms. unfold ticket_messages.
  split; [apply StronglySorted_merge_sort; apply _|].
  split; [apply merge_sort_Permutation|].
  split; [|done].
  intros m. rewrite merge_sort_Permutation, list_elem_of_filter. tauto.
Qed.

Lemma getTicket_messages_sorted_and_exact_witness :
  let ms := [message1; message3; message4] in
  StronglySorted oldest_first ms ∧
  ms ≡ₚ filter (fun m => Message.ticket_id m = "t1") (messages sample_db) ∧
  (∀ m, m ∈ ms ↔ m ∈ messages sample_db ∧ Message.ticket_id m = "t1") ∧
  ms = ticket_messages "t1" sample_db.
Proof.
  apply (getTicket_messages_sorted_and_exact sample_world
           (snd (run (getTicket "t1") sample_world)) "t1"
           (default (EnrichedTicket.mk ticket1 None None None None [] false)
              (fst (run (getTicket "t1") sample_world)))).
  - vm_compute. reflexivity.
  - reflexivity.
Defined.

(** ** Navigation *)

(** The rule as the specification words it and the effect disagree on a
    path that merely begins like a public one: the effect leaves an
    unauthenticated visitor of [/registered] where they are. *)
Lemma navigation_public_paths_are_prefixes :
  navigation_intent true false false None "/registered" = None ∧
  spec_navigation_intent false None "/registered" = Some "/".
Proof. split; reflexivity. Qed.

(** C2 (amended). Once initialised and not loading, the navigation intent is
    this function of (authenticated, role, path): unauthenticated, it
    redirects to root unless the path is root or begins with [/register] or
    [/forgot-password]; authenticated with a role, it redirects to [/role]
    when the path is root or does not begin with [/role]; otherwise it does
    nothing.  The three cases the specification lists come out as stated. *)
Theorem navigation_intent_characterised
  (authenticated : bool) (role : UserType) (path : string) :
  navigation_intent true false authenticated role path =
    (if negb authenticated then
       if bool_decide (path = "/") || startsWith path "/register"
          || startsWith path "/forgot-password"
       then None else Some "/"
     else
       match role with
       | Some r =>
           if bool_decide (path = "/") || negb (startsWith path ("/" +:+ role_str r))
           then Some ("/" +:+ role_str r)
           else None
       | None => None
       end) ∧
  navigation_intent true false false None "/admin" = Some "/" ∧
  navigation_intent true false true (Some customer) "/" = Some "/customer" ∧
  navigation_intent true false true (Some admin) "/admin/settings" = None.
Proof.
  split; [|repeat split; reflexivity].
  unfold navigation_intent.
  destruct role as [[|]|]; cbn [role_str];
    try change ("/" +:+ "admin") with "/admin";
    try change ("/" +:+ "customer") with "/customer";
    destruct authenticated, (bool_decide (path = "/")),
      (startsWith path "/register"), (startsWith path "/forgot-password");
    cbn [negb orb andb];
    try destruct (startsWith path "/admin");
    try destruct (startsWith path "/customer");
    reflexivity.
Qed.

(** ** The auth-change subscription *)

#[global] Instance same_subscriptions_refl : Reflexive same_subscriptions.
Proof. by intros w. Qed.
#[global] Instance same_subscriptions_trans : Transitive same_subscriptions.
Proof. intros a b c [H1 H2] [H3 H4]. split; congruence. Qed.

Lemma round_trip_same_subscriptions {A} rq (exec : World -> Response A * Db) w :
  same_subscriptions w (snd (round_trip rq exec w)).
Proof.
  unfold round_trip. destruct (fault w (tick w) rq); [done|].
  by destruct (exec w).
Qed.

Lemma getProfile_same_subscriptions userId :
  preserves same_subscriptions (getProfile userId).
Proof.
  unfold getProfile. apply preserves_bind.
  - apply preserves_io. intros w. apply round_trip_same_subscriptions.
  - by intros [[|p l]|e].
Qed.

Lemma createProfile_same_subscriptions userId email userType :
  preserves same_subscriptions (createProfile userId email userType).
Proof.
  unfold createProfile. apply preserves_bind.
  - apply getProfile_same_subscriptions.
  - intros [p|]; [done|]. apply preserves_bind.
    + apply preserves_io. intros w. apply round_trip_same_subscriptions.
    + intros [d|e]; [done|]. case_bool_decide; [|done].
      apply getProfile_same_subscriptions.
Qed.

Lemma adopt_same_subscriptions p : preserves same_subscriptions (adopt p).
Proof. by repeat split. Qed.

Lemma fetchOrCreateProfile_same_subscriptions userId userEmail :
  preserves same_subscriptions (fetchOrCreateProfile userId userEmail).
Proof.
  unfold fetchOrCreateProfile. apply preserves_bind; [by repeat split|].
  intros _. apply preserves_bind; [apply getProfile_same_subscriptions|].
  intros [p|]; [apply adopt_same_subscriptions|].
  destruct userEmail as [email|]; [|done].
  destruct (truthy (Some email)); [|done].
  apply preserves_bind; [apply createProfile_same_subscriptions|].
  intros [np|]; [apply adopt_same_subscriptions|].
  apply preserves_bind; [apply getProfile_same_subscriptions|].
  intros [rp|]; [apply adopt_same_subscriptions|done].
Qed.

(** Sequencing rule: a task that keeps the subscriptions, then the rest. *)
Lemma run_then {A B} (m : Async A) (k : A -> Async B) (w0 w : World)
  (P : B * World -> Prop) :
  preserves same_subscriptions m ->
  same_subscriptions w0 w ->
  (∀ a w1, same_subscriptions w0 w1 -> P (run (k a) w1)) ->
  P (run (bind m k) w).
Proof.
  intros Hm H0 Hk. rewrite run_bind.
  pose proof (preserves_run same_subscriptions m w Hm) as F.
  destruct (run m w) as [a w1]. apply Hk. by etransitivity.
Qed.

Lemma initializeAuth_subscribes (w : World) :
  ∃ h : nat,
    fst (run initializeAuth w) = Some (Unsubscribe h) ∧
    listeners (snd (run initializeAuth w)) = listeners w ++ [h] ∧
    unsubscribed (snd (run initializeAuth w)) = unsubscribed w.
Proof.
  pattern (run initializeAuth w).
  unfold initializeAuth.
  apply (run_then _ _ w); [by repeat split | done |]. intros cs w1 F1.
  apply (run_then _ _ w); [by repeat split | done |]. intros _ w2 F2.
  apply (run_then _ _ w); [by repeat split | done |]. intros _ w3 F3.
  apply (run_then _ _ w); [| done |].
  { destruct cs as [s|]; [|done].
    apply preserves_bind; [apply fetchOrCreateProfile_same_subscriptions|done]. }
  intros _ w4 F4.
  apply (run_then _ _ w); [by repeat split | done |]. intros _ w5 F5.
  apply (run_then _ _ w); [by repeat split | done |]. intros _ w6 F6.
  destruct F6 as [Hl Hu]. simpl. rewrite Hl, Hu. eauto.
Qed.

(** C7 (what the code does). [initializeAuth] subscribes and its promise
    resolves to the closure that would unsubscribe, but the effect callback
    returns nothing, so teardown is a no-op: after the whole life of the
    component the listener is still registered and [unsubscribe] was never
    invoked. *)
Theorem auth_subscription_is_never_released (w : World) :
  ∃ h : nat,
    fst (run (started auth_effect) w) = Some (Unsubscribe h) ∧
    returned auth_effect = None ∧
    listeners (lifetime auth_effect w) = listeners w ++ [h] ∧
    unsubscribed (lifetime auth_effect w) = unsubscribed w.
Proof.
  destruct (initializeAuth_subscribes w) as (h & H1 & H2 & H3).
  exists h. unfold lifetime, teardown. simpl. auto.
Qed.

(** ** Concurrent profile resolution *)

Section Resolution.
Context (userId : string).

Lemma row_kept_refl w : row_kept userId w w.
Proof. by intros p. Qed.

Lemma row_kept_trans w1 w2 w3 :
  row_kept userId w1 w2 -> row_kept userId w2 w3 -> row_kept userId w1 w3.
Proof. intros H1 H2 p Hp. by apply H2, H1. Qed.

Lemma rely_refl w w0 : rely userId w0 w -> rely userId w w.
Proof. intros (_ & Hr & Ho). split; [apply row_kept_refl|done]. Qed.

Lemma rely_trans w1 w2 w3 :
  rely userId w1 w2 -> rely userId w2 w3 -> rely userId w1 w3.
Proof.
  intros (H1 & _) (H2 & Hr & Ho). split; [|done]. by eapply row_kept_trans.
Qed.

Lemma wp_later {A} (m : Async A) Q w w1 :
  rely userId w w1 -> wp userId m Q w -> wp userId m Q w1.
Proof.
  intros Hr. destruct m as [a | X step k]; simpl; intros H w' Hw';
    apply H; by eapply rely_trans.
Qed.

Lemma wp_intro {A} (m : Async A) Q w :
  (∀ w', rely userId w w' -> wp userId m Q w') -> wp userId m Q w.
Proof.
  destruct m as [a | X step k]; simpl; intros H w' Hw';
    apply (H w' Hw' w'); by eapply rely_refl.
Qed.

Lemma wp_bind {A B} (m : Async A) (f : A -> Async B) Q Q' w :
  wp userId m Q w ->
  (∀ a w1, Q a w1 -> wp userId (f a) Q' w1) ->
  wp userId (bind m f) Q' w.
Proof.
  revert w. induction m as [a | X step k IH]; intros w Hm Hf.
  - simpl in *. apply wp_intro. intros w' Hw'. by apply Hf, Hm.
  - simpl in *. intros w' Hw'. destruct (Hm w' Hw') as [Hg Hk].
    split; [done|]. by apply IH.
Qed.

Lemma wp_weaken {A} (m : Async A) (Q Q' : A -> World -> Prop) w :
  wp userId m Q w -> (∀ a w1, Q a w1 -> Q' a w1) -> wp userId m Q' w.
Proof.
  revert w. induction m as [a | X step k IH]; intros w Hm HQ; simpl in *.
  - intros w' Hw'. by apply HQ, Hm.
  - intros w' Hw'. destruct (Hm w' Hw') as [Hg Hk]. split; [done|]. by apply IH.
Qed.

(** A synchronous update of the coordinator's state. *)
Lemma wp_set_auth (f : World -> AuthState) w :
  wp userId (sync (fun w => set_auth (f w) w)) (fun _ _ => True) w.
Proof.
  simpl. intros w' (Hk & Hr & Ho). split; [|done].
  split; [by intros p|]. done.
Qed.

Lemma wp_delay ms w : wp userId (delay ms) (fun _ _ => True) w.
Proof.
  simpl. intros w' (Hk & Hr & Ho). split; [|done]. split; [by intros p|done].
Qed.

Lemma rely_advance rq w0 w :
  rely userId w0 w -> rely userId w (advance rq w).
Proof. intros (_ & Hr & Ho). split; [by intros p|]. done. Qed.

(** A fetch that returns a profile returns the stored row. *)
Lemma wp_getProfile w :
  wp userId (getProfile userId)
    (fun r w1 => ∀ p, r = Some p -> profile_rows userId (db w1) = [p]) w.
Proof.
  unfold getProfile, profiles_eq_id. simpl. intros w' Hw'.
  pose proof Hw' as (_ & Hr & Ho).
  rewrite query_ok by apply Hr. simpl.
  split; [by eapply rely_advance|].
  unfold provisioned_once in Ho.
  destruct (profile_rows userId (db w')) as [|p [|p' l]] eqn:Hrows; simpl.
  - by intros w1 _ p.
  - intros w1 (Hk & _) q [= <-]. apply Hk. done.
  - simpl in Ho. lia.
Qed.

(** A fetch made once the row is there returns it. *)
Lemma wp_getProfile_found w p :
  profile_rows userId (db w) = [p] ->
  wp userId (getProfile userId)
    (fun r w1 => r = Some p ∧ profile_rows userId (db w1) = [p]) w.
Proof.
  intros Hp. unfold getProfile, profiles_eq_id. simpl. intros w' Hw'.
  pose proof Hw' as (Hk & Hr & Ho).
  rewrite query_ok by apply Hr. simpl.
  split; [by eapply rely_advance|].
  rewrite (Hk p Hp). simpl. intros w1 (Hk1 & _). split; [done|].
  apply Hk1. simpl. by apply Hk.
Qed.

Lemma profile_rows_app_new d email userType w :
  profile_rows userId d = [] ->
  filter (fun p => Profile.id p = userId)
         (profiles d ++ [new_profile userId email userType w])
  = [new_profile userId email userType w].
Proof.
  intros H. unfold profile_rows in H. rewrite filter_app, H. simpl.
  rewrite filter_cons_True by done. done.
Qed.

(** The insert either stores the row or finds one stored: afterwards the
    row is there, and the only failure is the uniqueness conflict. *)
Lemma wp_profiles_insert email userType w :
  wp userId (profiles_insert userId email userType)
    (fun r w1 => ∃ p, profile_rows userId (db w1) = [p] ∧
                      (r = Ok (Some p) ∨ r = Err duplicate_key)) w.
Proof.
  unfold profiles_insert. simpl. intros w' Hw'.
  pose proof Hw' as (Hk & Hr & Ho).
  rewrite round_trip_ok by apply Hr.
  unfold provisioned_once in Ho.
  destruct (profile_rows userId (db w')) as [|p [|p' l]] eqn:Hrows;
    cbn [fst snd].
  - set (np := new_profile userId email userType w').
    assert (Hnew : profile_rows userId
              (db (advance (InsertProfile userId email userType)
                     (set_db (mkDb (profiles (db w') ++ [np]) (tickets (db w'))
                                (messages (db w')) (attachments (db w'))) w')))
            = [np]).
    { unfold profile_rows at 1. simpl. by apply profile_rows_app_new. }
    split.
    + split; [intros q Hq; congruence|]. split; [done|].
      unfold provisioned_once. by rewrite Hnew.
    + intros w1 (Hk1 & _). exists np. split; [by apply Hk1|by left].
  - split.
    + split; [by intros q|]. split; [done|].
      unfold provisioned_once. simpl. by rewrite Hrows.
    + intros w1 (Hk1 & _). exists p. split; [|by right].
      apply Hk1. simpl. done.
  - simpl in Ho. lia.
Qed.

Lemma wp_adopt p w :
  profile_rows userId (db w) = [p] ->
  wp userId (adopt p) (resolved_to userId) w.
Proof.
  intros Hp. unfold adopt. simpl.
  intros w1 (Hk1 & Hr1 & Ho1). split; [split; [by intros q|done]|].
  intros w2 (Hk2 & Hr2 & Ho2). split; [split; [by intros q|done]|].
  intros w3 (Hk3 & _). exists p. split; [done|].
  apply Hk3. simpl. apply Hk2. simpl. by apply Hk1.
Qed.

Lemma wp_createProfile email userType w :
  wp userId (createProfile userId email userType) (resolved_to userId) w.
Proof.
  unfold createProfile.
  eapply wp_bind; [apply wp_getProfile|].
  intros [p|] w1 Hp.
  - simpl. intros w2 (Hk & _). exists p. split; [done|]. apply Hk. by apply Hp.
  - eapply wp_bind; [apply wp_profiles_insert|].
    intros r w2 (p & Hrows & [-> | ->]).
    + simpl. intros w3 (Hk & _). exists p. split; [done|]. by apply Hk.
    + change (bool_decide (code duplicate_key = "23505")) with true. cbv iota.
      eapply wp_weaken; [by apply wp_getProfile_found|].
      intros r w3 [-> Hr]. by exists p.
Qed.

(** A resolution with an email always ends on the stored row. *)
Lemma wp_fetchOrCreateProfile email w :
  email ≠ "" ->
  wp userId (fetchOrCreateProfile userId (Some email)) (resolved_to userId) w.
Proof.
  intros Hne. unfold fetchOrCreateProfile.
  eapply wp_bind; [apply wp_delay|]. intros _ w1 _.
  eapply wp_bind; [apply wp_getProfile|].
  intros [p|] w2 Hp.
  - apply wp_adopt. by apply Hp.
  - unfold truthy. rewrite bool_decide_eq_false_2 by done. cbn [negb].
    eapply wp_bind; [apply wp_createProfile|].
    intros r w3 (p & -> & Hrows). by apply wp_adopt.
Qed.

(** Interleaved steps keep what both tasks are heading for. *)
Lemma interleave_wp {A B} (sched : list bool) (p : Async A) (q : Async B) QA QB w w0 :
  rely userId w0 w ->
  wp userId p QA w -> wp userId q QB w ->
  let '(p', q', w1) := interleave sched p q w in
  rely userId w w1 ∧ wp userId p' QA w1 ∧ wp userId q' QB w1.
Proof.
  revert p q w w0.
  induction sched as [|b s IH]; intros p q w w0 Hw Hp Hq.
  - simpl. split; [by eapply rely_refl|done].
  - destruct b; simpl.
    + destruct p as [a | X step k]; [by eapply IH|].
      simpl in Hp. destruct (Hp w (rely_refl _ _ Hw)) as [Hg Hk].
      destruct (step w) as [x w']. simpl in Hg, Hk.
      specialize (IH (k x) q w' w Hg Hk (wp_later _ _ _ _ Hg Hq)).
      destruct (interleave s (k x) q w') as [[p' q'] w1].
      destruct IH as (H1 & H2 & H3). split; [by eapply rely_trans|done].
    + destruct q as [a | X step k]; [by eapply IH|].
      simpl in Hq. destruct (Hq w (rely_refl _ _ Hw)) as [Hg Hk].
      destruct (step w) as [x w']. simpl in Hg, Hk.
      specialize (IH p (k x) w' w Hg (wp_later _ _ _ _ Hg Hp) Hk).
      destruct (interleave s p (k x) w') as [[p' q'] w1].
      destruct IH as (H1 & H2 & H3). split; [by eapply rely_trans|done].
Qed.

(** A task run alone to its end reaches its postcondition, for good. *)
Lemma run_wp {A} (m : Async A) Q w w0 :
  rely userId w0 w ->
  wp userId m Q w ->
  rely userId w (snd (run m w)) ∧
  (∀ w', rely userId (snd (run m w)) w' -> Q (fst (run m w)) w').
Proof.
  revert w w0. induction m as [a | X step k IH]; intros w w0 Hw Hm; simpl.
  - split; [by eapply rely_refl|]. intros w' Hw'. by apply Hm.
  - simpl in Hm. destruct (Hm w (rely_refl _ _ Hw)) as [Hg Hk].
    destruct (step w) as [x w1]. simpl in Hg, Hk.
    destruct (IH x w1 w Hg Hk) as [H1 H2].
    split; [by eapply rely_trans|done].
Qed.

Lemma profile_rows_id d p : p ∈ profile_rows userId d -> Profile.id p = userId.
Proof. unfold profile_rows. rewrite list_elem_of_filter. tauto. Qed.

(** Two resolutions for the same new user, under any schedule. *)
Lemma concurrent_resolutions (sched : list bool) (e1 e2 : string) (w : World) :
  reliable w ->
  profile_rows userId (db w) = [] ->
  e1 ≠ "" -> e2 ≠ "" ->
  let '(r1, r2, w') :=
    concurrently sched (fetchOrCreateProfile userId (Some e1))
                       (fetchOrCreateProfile userId (Some e2)) w in
  ∃ p, r1 = Some p ∧ r2 = Some p ∧ Profile.id p = userId ∧
       profile_rows userId (db w') = [p].
Proof.
  intros Hrel Hnew H1 H2.
  assert (Hw : rely userId w w).
  { split; [apply row_kept_refl|]. split; [done|].
    unfold provisioned_once. rewrite Hnew. simpl. lia. }
  unfold concurrently.
  pose proof (interleave_wp sched _ _ _ _ w w Hw
                (wp_fetchOrCreateProfile e1 w H1)
                (wp_fetchOrCreateProfile e2 w H2)) as HI.
  destruct (interleave sched _ _ w) as [[p' q'] w1].
  destruct HI as (Hw1 & Hp & Hq).
  pose proof (run_wp p' _ w1 w Hw1 Hp) as [Hw2 HP].
  destruct (run p' w1) as [a w2]. simpl in Hw2, HP.
  pose proof (run_wp q' _ w2 w1 Hw2 (wp_later _ _ _ _ Hw2 Hq)) as [Hw3 HQ].
  destruct (run q' w2) as [b w3]. simpl in Hw3, HQ.
  destruct (HP w3 Hw3) as (pa & -> & Hra).
  destruct (HQ w3 (rely_refl _ _ Hw3)) as (pb & -> & Hrb).
  exists pa. rewrite Hra in Hrb. injection Hrb as <-.
  repeat split; try done.
  apply (profile_rows_id (db w3)). rewrite Hra. by left.
Qed.

End Resolution.

(** What [createProfile] does on a uniqueness conflict: it fetches again and
    returns what that fetch finds. *)
Lemma createProfile_conflict_refetches w userId email userType w1 err w2 :
  run (getProfile userId) w = (None, w1) ->
  run (profiles_insert userId email userType) w1 = (Err err, w2) ->
  code err = "23505" ->
  run (createProfile userId email userType) w = run (getProfile userId) w2.
Proof.
  intros H1 H2 Hc. unfold createProfile.
  rewrite run_bind, H1, run_bind, H2. by rewrite bool_decide_eq_true_2.
Qed.

(** C1. Two resolutions for the same new user, interleaved in any way over
    a backend that answers and enforces the primary key, both end with the
    same profile, which is the only stored row with that id; whenever the
    insert of [createProfile] reports the duplicate-key code, its result is
    that of a new fetch by id.  A resolution returns an optional profile:
    no error reaches the caller. *)
Theorem resolveProfile_idempotent_under_conflict
  (w : World) (userId e1 e2 : string) (sched : list bool) :
  reliable w ->
  profile_rows userId (db w) = [] ->
  e1 ≠ "" -> e2 ≠ "" ->
  (let '(r1, r2, w') :=
     concurrently sched (fetchOrCreateProfile userId (Some e1))
                        (fetchOrCreateProfile userId (Some e2)) w in
   ∃ p, r1 = Some p ∧ r2 = Some p ∧ Profile.id p = userId ∧
        profile_rows userId (db w') = [p]) ∧
  (∀ w0 email userType w1 err w2,
     run (getProfile userId) w0 = (None, w1) ->
     run (profiles_insert userId email userType) w1 = (Err err, w2) ->
     code err = "23505" ->
     run (createProfile userId email userType) w0 = run (getProfile userId) w2).
Proof.
  intros Hrel Hnew H1 H2. split.
  - by apply concurrent_resolutions.
  - intros. by eapply createProfile_conflict_refetches.
Qed.

Lemma resolveProfile_idempotent_under_conflict_witness :
  (let '(r1, r2, w') :=
     concurrently racing_schedule
       (fetchOrCreateProfile "u-carol" (Some "carol@example.org"))
       (fetchOrCreateProfile "u-carol" (Some "carol@example.org")) sample_world in
   ∃ p, r1 = Some p ∧ r2 = Some p ∧ Profile.id p = "u-carol" ∧
        profile_rows "u-carol" (db w') = [p]) ∧
  (∀ w0 email userType w1 err w2,
     run (getProfile "u-carol") w0 = (None, w1) ->
     run (profiles_insert "u-carol" email userType) w1 = (Err err, w2) ->
     code err = "23505" ->
     run (createProfile "u-carol" email userType) w0 = run (getProfile "u-carol") w2).
Proof.
  apply (resolveProfile_idempotent_under_conflict sample_world "u-carol"
           "carol@example.org" "carol@example.org" racing_schedule).
  - intros n rq. reflexivity.
  - reflexivity.
  - discriminate.
  - discriminate.
Defined.

(** Under the racing schedule the conflict does happen: both resolutions
    insert, the second insert is rejected, and its task fetches again. *)
Example racing_schedule_hits_the_conflict :
  log (snd (concurrently racing_schedule
              (fetchOrCreateProfile "u-carol" (Some "carol@example.org"))
              (fetchOrCreateProfile "u-carol" (Some "carol@example.org"))
              sample_world))
  = [SelectProfilesEqId "u-carol"; SelectProfilesEqId "u-carol";
     SelectProfilesEqId "u-carol"; SelectProfilesEqId "u-carol";
     InsertProfile "u-carol" "carol@example.org" customer;
     InsertProfile "u-carol" "carol@example.org" customer;
     SelectProfilesEqId "u-carol"].
Proof. vm_compute. reflexivity. Qed.

(** ** Further properties of the aggregator and of navigation *)

#[global] Instance newest_first_total : Total newest_first.
Proof. intros a b. unfold newest_first. lia. Qed.
#[global] Instance newest_first_trans : Transitive newest_first.
Proof. intros a b c. unfold newest_first. lia. Qed.

(** X1. The tickets [getTickets] returns are in descending [updated_at]
    order: of any two, the earlier one in the list was updated last. *)
Theorem getTickets_newest_first
  (w : World) (userType : UserType) (status : option string) :
  StronglySorted newest_first
    (map EnrichedTicket.row (fst (run (getTickets userType status) w))).
Proof.
  rewrite getTickets_rows. destruct (fault w (tick w) _).
  - constructor.
  - apply StronglySorted_merge_sort; apply _.
Qed.

(** X2. With a status filter [S] among open, pending and resolved, every
    ticket [getTickets] returns has status [S]. *)
Theorem getTickets_status_filter
  (w : World) (userType : UserType) (S : TicketStatus) (et : EnrichedTicket.t) :
  et ∈ fst (run (getTickets userType (Some (status_str S))) w) ->
  Ticket.status (EnrichedTicket.row et) = S.
Proof.
  intros Hin. apply (list_elem_of_fmap_2 EnrichedTicket.row) in Hin.
  rewrite getTickets_rows in Hin.
  assert (Hsf : status_filter (Some (status_str S)) = Some (status_str S))
    by (by destruct S).
  rewrite Hsf in Hin. destruct (fault w (tick w) _).
  - by apply elem_of_nil in Hin.
  - apply ticket_list_elem in Hin as [_ [Hst _]].
    by destruct (Ticket.status (EnrichedTicket.row et)), S.
Qed.

Lemma getTickets_status_filter_witness :
  Ticket.status
    (EnrichedTicket.row (decorate_ticket {[ "u-bob" := bob ]} ∅
                           {[ "t2" := 1%nat ]}
                           {[ "t2" := LastMessage.mk message2
                                        (Some (Sender.of_profile bob)) ]}
                           ticket2)) = pending.
Proof.
  apply (getTickets_status_filter sample_world (Some admin) pending).
  vm_compute. left.
Defined.

(** X3. The navigation effect does nothing before initialisation has
    finished or while loading. *)
Theorem navigation_waits_until_ready
  (isInitialized isLoading authenticated : bool) (role : UserType) (path : string) :
  navigation_intent false isLoading authenticated role path = None ∧
  navigation_intent isInitialized true authenticated role path = None.
Proof.
  unfold navigation_intent. split; [done|].
  by destruct isInitialized.
Qed.

(** X4. [getTicket] on an id that no ticket row carries returns nothing
    (the typed absence), after the one request for the row. *)
Theorem getTicket_not_found (w : World) (ticketId : string) :
  ticket_rows ticketId (db w) = [] ->
  run (getTicket ticketId) w = (None, advance (SelectTicketSingle ticketId) w).
Proof.
  intros Hrows. unfold getTicket, tickets_eq_id_single.
  rewrite run_bind, run_io. unfold round_trip.
  destruct (fault w (tick w) _); [done|].
  rewrite Hrows. simpl. by rewrite set_db_same.
Qed.

Lemma getTicket_not_found_witness :
  run (getTicket "t9") sample_world
  = (None, advance (SelectTicketSingle "t9") sample_world).
Proof. apply (getTicket_not_found sample_world "t9"). reflexivity. Defined.

(** X5. Whatever the oracle does, [createProfile] never leaves two rows
    with the id where there was at most one. *)
Theorem createProfile_keeps_profiles_unique
  (w : World) (userId email : string) (userType : Role) :
  (length (profile_rows userId (db w)) <= 1)%nat ->
  (length (profile_rows userId
             (db (snd (run (createProfile userId email userType) w)))) <= 1)%nat.
Proof.
  intros Hone. unfold createProfile.
  rewrite run_bind, run_getProfile.
  set (w1 := advance (SelectProfilesEqId userId) w).
  assert (Hw1 : profile_rows userId (db w1) = profile_rows userId (db w)) by done.
  assert (Hins : ∀ w0 : World,
    profile_rows userId (db w0) = profile_rows userId (db w) ->
    (length (profile_rows userId
       (db (snd (run (await r := profiles_insert userId email userType in
                      match r with
                      | Err error =>
                          if bool_decide (code error = "23505")
                          then getProfile userId else Return None
                      | Ok data => Return data
                      end) w0)))) <= 1)%nat).
  { intros w0 Hw0. unfold profiles_insert. rewrite run_bind, run_io.
    unfold round_trip. destruct (fault w0 (tick w0) _) as [e|].
    - case_bool_decide; [rewrite run_getProfile|]; simpl; by rewrite Hw0.
    - destruct (profile_rows userId (db w0)) as [|p l] eqn:Hrows.
      + simpl. unfold profile_rows at 1. simpl.
        by rewrite (profile_rows_app_new userId (db w0)).
      + change (bool_decide (code duplicate_key = "23505")) with true.
        cbv iota. rewrite run_getProfile. simpl.
        rewrite Hrows, Hw0. done. }
  destruct (fault w (tick w) _); [by apply Hins|].
  destruct (head (profile_rows userId (db w))); [done|by apply Hins].
Qed.

Lemma createProfile_keeps_profiles_unique_witness :
  (length (profile_rows "u-dave"
             (db (snd (run (createProfile "u-dave" "dave@example.org" customer)
                         (failing_at 10 sample_world))))) <= 1)%nat.
Proof.
  apply (createProfile_keeps_profiles_unique (failing_at 10 sample_world)
           "u-dave" "dave@example.org" customer).
  simpl. lia.
Defined.

(** ** Reads leave the store alone *)

Lemma fetch_last_messages_cons ticketId rest acc :
  fetch_last_messages (ticketId :: rest) acc =
  (await r := messages_last ticketId in
   match data_of r with
   | Some (m :: _) => fetch_last_messages rest (<[ticketId := m]> acc)
   | _ => fetch_last_messages rest acc
   end).
Proof. reflexivity. Qed.

Lemma fetch_last_messages_same_store ticketIds acc :
  preserves same_store (fetch_last_messages ticketIds acc).
Proof.
  revert acc. induction ticketIds as [|tid rest IH]; intros acc; [done|].
  rewrite fetch_last_messages_cons.
  apply preserves_bind; [apply query_same_store|].
  intros r. destruct (data_of r) as [[|m l]|]; apply IH.
Qed.

Lemma getTickets_same_store userType status :
  preserves same_store (getTickets userType status).
Proof.
  unfold getTickets. apply preserves_bind.
  { by destruct userType as [[|]|]. }
  intros owner. apply preserves_bind; [apply query_same_store|].
  intros [[|t ts]|e]; try done.
  apply preserves_bind; [apply query_same_store|]. intros customers.
  apply preserves_bind.
  { destruct (distinct _); [done|apply query_same_store]. }
  intros assigned. apply preserves_bind; [apply query_same_store|].
  intros msgs. apply preserves_bind; [apply fetch_last_messages_same_store|done].
Qed.

Lemma getTicket_same_store ticketId : preserves same_store (getTicket ticketId).
Proof.
  unfold getTicket. apply preserves_bind; [apply single_same_store|].
  intros [ticket|e]; [|done].
  apply preserves_bind; [apply single_same_store|]. intros c.
  apply preserves_bind.
  { destruct (assignee ticket); [|done].
    apply preserves_bind; [apply single_same_store|done]. }
  intros assigned. apply preserves_bind; [apply query_same_store|]. intros mr.
  apply preserves_bind; [apply fetch_sender_profiles_same_store|]. intros sp.
  apply preserves_bind; [apply fetch_attachments_same_store|done].
Qed.

Lemma getMessages_same_store ticketId : preserves same_store (getMessages ticketId).
Proof.
  unfold getMessages. apply preserves_bind; [apply query_same_store|].
  intros [data|e]; [|done].
  apply preserves_bind; [apply fetch_sender_profiles_same_store|]. intros sp.
  apply preserves_bind; [apply fetch_attachments_same_store|done].
Qed.

(** X6. The four read functions never modify the store, whatever the
    backend answers and whichever requests fail. *)
Theorem reads_never_modify_the_store
  (w : World) (userId ticketId : string) (userType : UserType)
  (status : option string) :
  db (snd (run (getProfile userId) w)) = db w ∧
  db (snd (run (getTickets userType status) w)) = db w ∧
  db (snd (run (getTicket ticketId) w)) = db w ∧
  db (snd (run (getMessages ticketId) w)) = db w.
Proof.
  repeat split.
  - by rewrite run_getProfile.
  - apply (preserves_run same_store), getTickets_same_store.
  - apply (preserves_run same_store), getTicket_same_store.
  - apply (preserves_run same_store), getMessages_same_store.
Qed.

(** ** The requests of the ticket list *)

Lemma issues_return {A} (a : A) : issues (Return a) [].
Proof. intros w. simpl. by rewrite app_nil_r. Qed.

Lemma issues_bind {A B} (m : Async A) (f : A -> Async B) r1 r2 :
  issues m r1 -> (∀ a, issues (f a) r2) -> issues (bind m f) (r1 ++ r2).
Proof.
  intros Hm Hf w. rewrite run_bind. specialize (Hm w).
  destruct (run m w) as [a w1]. simpl in Hm.
  rewrite (Hf a w1), Hm. by rewrite app_assoc.
Qed.

Lemma issues_query {A} rq (rows : Db -> A) : issues (io (query rq rows)) [rq].
Proof. intros w. by rewrite run_io, query_frame. Qed.

Lemma issues_fetch_last_messages ticketIds acc :
  issues (fetch_last_messages ticketIds acc) (map SelectLastMessage ticketIds).
Proof.
  revert acc. induction ticketIds as [|tid rest IH]; intros acc.
  - apply issues_return.
  - rewrite fetch_last_messages_cons.
    apply (issues_bind _ _ [SelectLastMessage tid]); [apply issues_query|].
    intros r. destruct (data_of r) as [[|m l]|]; apply IH.
Qed.

(** X7. The requests of [getTickets]: the ticket query, and when it returns
    tickets, one customer lookup, one assignee lookup if some ticket has an
    assignee, one query for the message counts and one last-message query
    per ticket; never a profile query per ticket.  This holds whichever of
    these requests fail. *)
Theorem getTickets_requests
  (w : World) (userType : UserType) (status : option string) :
  let rq := SelectTickets (status_filter status) (owner_restriction userType w) in
  log (snd (run (getTickets userType status) w)) =
  log w ++ rq ::
    match fault w (tick w) rq with
    | Some _ => []
    | None =>
        match ticket_list (status_filter status) (owner_restriction userType w) (db w) with
        | [] => []
        | t :: ts => decoration_requests (t :: ts)
        end
    end.
Proof.
  intros rq. unfold getTickets. rewrite run_bind.
  assert (Howner :
    run (match userType with
         | Some customer =>
             await uid := auth_getUser in Return (owner_filter uid)
         | _ => Return None
         end) w = (owner_restriction userType w, w)).
  { unfold owner_restriction. destruct userType as [[|]|]; reflexivity. }
  rewrite Howner. unfold tickets_select. rewrite run_bind, run_io. fold rq.
  destruct (fault w (tick w) rq) as [e|] eqn:Hf.
  - by rewrite query_fail with (e := e).
  - rewrite query_ok by done.
    destruct (ticket_list _ _ (db w)) as [|t ts]; [done|].
    match goal with |- log (snd (run ?m ?w0)) = _ =>
      assert (H : issues m (decoration_requests (t :: ts)))
    end.
    { unfold decoration_requests.
      apply issues_bind; [apply issues_query|]. intros customers.
      apply issues_bind.
      { destruct (distinct (omap assignee (t :: ts)));
          [apply issues_return|apply issues_query]. }
      intros assigned. apply issues_bind; [apply issues_query|].
      intros msgs.
      rewrite <- (app_nil_r (map SelectLastMessage _)).
      apply issues_bind; [apply issues_fetch_last_messages|].
      intros lm. apply issues_return. }
    rewrite H. simpl. by rewrite <- app_assoc.
Qed.

(** ** What the ticket list is decorated with *)

Lemma last_cons_cons {A} (x y : A) l : last (x :: y :: l) = last (y :: l).
Proof. reflexivity. Qed.

(** A lookup in the profile map finds the last row with that id. *)
Lemma foldl_profile_map_lookup (rows : list Profile.t) (m0 : gmap string Profile.t) k :
  foldl (fun m p => <[Profile.id p := p]> m) m0 rows !! k =
  match last (filter (fun p => Profile.id p = k) rows) with
  | Some p => Some p
  | None => m0 !! k
  end.
Proof.
  revert m0. induction rows as [|p rows IH]; intros m0; [done|].
  simpl foldl. rewrite IH.
  destruct (decide (Profile.id p = k)) as [Hk|Hk].
  - rewrite filter_cons_True by done.
    destruct (filter _ rows) as [|q l] eqn:Hf.
    + simpl. by rewrite Hk, lookup_insert_eq.
    + rewrite last_cons_cons. destruct (last (q :: l)) eqn:Hl; [done|].
      by apply last_None in Hl.
  - rewrite filter_cons_False by done.
    destruct (last _); [done|]. by rewrite lookup_insert_ne.
Qed.

Lemma profile_map_lookup rows k :
  profile_map rows !! k = last (filter (fun p => Profile.id p = k) rows).
Proof.
  unfold profile_map. rewrite foldl_profile_map_lookup, lookup_empty.
  by destruct (last _).
Qed.

Lemma last_elem_of {A} (l : list A) x : last l = Some x -> x ∈ l.
Proof.
  induction l as [|y [|z l] IH]; [done| |].
  - intros [= ->]. by left.
  - rewrite last_cons_cons. intros H. right. by apply IH.
Qed.

Lemma profile_map_lookup_Some rows k p :
  profile_map rows !! k = Some p -> p ∈ rows ∧ Profile.id p = k.
Proof.
  rewrite profile_map_lookup. intros H. apply last_elem_of in H.
  by apply list_elem_of_filter in H as [? ?].
Qed.

Lemma filter_filter_in (ps : list Profile.t) (ids : list string) k :
  k ∈ ids ->
  filter (fun p => Profile.id p = k) (filter (fun p => Profile.id p ∈ ids) ps)
  = filter (fun p => Profile.id p = k) ps.
Proof.
  intros Hk. induction ps as [|p ps IH]; [done|].
  destruct (decide (Profile.id p = k)) as [Hp|Hp].
  - rewrite (filter_cons_True (fun p => Profile.id p ∈ ids)) by (by rewrite Hp).
    rewrite !filter_cons_True by done. by rewrite IH.
  - rewrite (filter_cons_False (fun p => Profile.id p = k) p ps) by done.
    destruct (decide (Profile.id p ∈ ids)).
    + rewrite filter_cons_True by done. by rewrite filter_cons_False.
    + by rewrite filter_cons_False.
Qed.

Lemma distinct_elem_of (xs : list string) x : x ∈ distinct xs ↔ x ∈ xs.
Proof.
  induction xs as [|y xs IH]; [done|]. simpl.
  rewrite !elem_of_cons, list_elem_of_filter, IH.
  destruct (decide (x = y)); intuition congruence.
Qed.

(** The count map counts the occurrences. *)
Lemma foldl_count_lookup (ids : list string) (m0 : gmap string nat) k :
  default 0%nat
    (foldl (fun m tid => <[tid := (default 0 (m !! tid) + 1)%nat]> m) m0 ids !! k)
  = (default 0 (m0 !! k) + length (filter (fun i => i = k) ids))%nat.
Proof.
  revert m0. induction ids as [|i ids IH]; intros m0; [simpl; lia|].
  simpl foldl. rewrite IH.
  destruct (decide (i = k)) as [->|Hk].
  - rewrite filter_cons_True by done. rewrite lookup_insert_eq. simpl. lia.
  - rewrite filter_cons_False by done. by rewrite lookup_insert_ne.
Qed.

Lemma count_messages_lookup ids k :
  default 0%nat (count_messages ids !! k) = length (filter (fun i => i = k) ids).
Proof. unfold count_messages. by rewrite foldl_count_lookup, lookup_empty. Qed.

Lemma count_ticket_ids (ms : list Message.t) (ids : list string) k :
  k ∈ ids ->
  length (filter (fun i => i = k)
            (map Message.ticket_id
               (filter (fun m => Message.ticket_id m ∈ ids) ms)))
  = length (filter (fun m => Message.ticket_id m = k) ms).
Proof.
  intros Hk. induction ms as [|m ms IH]; [done|].
  destruct (decide (Message.ticket_id m = k)) as [Hm|Hm].
  - rewrite (filter_cons_True (fun m => Message.ticket_id m ∈ ids)) by (by rewrite Hm).
    simpl map. rewrite !filter_cons_True by done. simpl. by rewrite IH.
  - rewrite (filter_cons_False (fun m => Message.ticket_id m = k)) by done.
    destruct (decide (Message.ticket_id m ∈ ids)).
    + rewrite filter_cons_True by done. simpl map.
      by rewrite filter_cons_False.
    + by rewrite filter_cons_False.
Qed.

(** The last-message map holds, for each listed ticket, what the
    last-message query yields. *)
Lemma foldl_last_lookup d (ids : list string) (m0 : gmap string LastMessage.t) k :
  foldl (fun m tid =>
           match last_message_of d tid with
           | Some x => <[tid := x]> m
           | None => m
           end) m0 ids !! k
  = if bool_decide (k ∈ ids)
    then match last_message_of d k with Some x => Some x | None => m0 !! k end
    else m0 !! k.
Proof.
  revert m0. induction ids as [|i ids IH]; intros m0; [done|].
  simpl foldl. rewrite IH.
  destruct (decide (i = k)) as [->|Hk].
  - rewrite (bool_decide_eq_true_2 (k ∈ k :: ids)) by left.
    destruct (last_message_of d k) as [x|] eqn:Hl.
    + rewrite lookup_insert_eq. by case_bool_decide.
    + by case_bool_decide.
  - assert (Hiff : k ∈ i :: ids ↔ k ∈ ids).
    { rewrite elem_of_cons. intuition congruence. }
    rewrite (bool_decide_ext _ _ Hiff).
    destruct (last_message_of d i); [|done].
    rewrite lookup_insert_ne by done. done.
Qed.

Lemma run_fetch_last_messages ticketIds acc w :
  reliable w ->
  fst (run (fetch_last_messages ticketIds acc) w) =
  foldl (fun m tid =>
           match last_message_of (db w) tid with
           | Some x => <[tid := x]> m
           | None => m
           end) acc ticketIds.
Proof.
  revert acc w. induction ticketIds as [|tid rest IH]; intros acc w Hrel; [done|].
  rewrite fetch_last_messages_cons, run_bind. unfold messages_last.
  rewrite run_io, query_ok by apply Hrel.
  simpl foldl. unfold last_message_of at 2.
  destruct (map (join_sender (db w)) _) as [|m l]; simpl data_of; cbv iota;
    simpl head; by rewrite IH.
Qed.

Lemma filter_elem_of_nil (ps : list Profile.t) :
  filter (fun p => Profile.id p ∈ @nil string) ps = [].
Proof.
  induction ps as [|p ps IH]; [done|].
  rewrite filter_cons_False; [done|]. apply not_elem_of_nil.
Qed.

(** The result of [getTickets] when no request fails. *)
Lemma getTickets_reliable w userType status :
  reliable w ->
  let ts := ticket_list (status_filter status) (owner_restriction userType w) (db w) in
  fst (run (getTickets userType status) w) = map (full_decoration (db w) ts) ts.
Proof.
  intros Hrel ts. unfold getTickets. rewrite run_bind.
  assert (Howner :
    run (match userType with
         | Some customer =>
             await uid := auth_getUser in Return (owner_filter uid)
         | _ => Return None
         end) w = (owner_restriction userType w, w)).
  { unfold owner_restriction. destruct userType as [[|]|]; reflexivity. }
  rewrite Howner. unfold tickets_select. rewrite run_bind, run_io.
  rewrite query_ok by apply Hrel. fold ts.
  destruct ts as [|t ts'] eqn:Hts; [done|].
  cbv zeta. unfold profiles_in_id at 1. rewrite run_bind, run_io.
  rewrite query_ok by apply Hrel. rewrite run_bind.
  set (w2 := advance _ (advance _ w)).
  set (aids := distinct (omap assignee (t :: ts'))).
  assert (Hassigned : ∃ w3, reliable w3 ∧ db w3 = db w ∧
    run (match aids with
         | [] => Return (Ok [])
         | _ :: _ => profiles_in_id aids
         end) w2
    = (Ok (filter (fun p => Profile.id p ∈ aids) (profiles (db w))), w3)).
  { destruct aids as [|a l] eqn:Ha.
    - exists w2. rewrite filter_elem_of_nil. done.
    - eexists. split; [|split]; [| |unfold profiles_in_id;
        rewrite run_io, query_ok by apply Hrel; reflexivity]; done. }
  destruct Hassigned as (w3 & Hrel3 & Hdb3 & ->).
  rewrite run_bind. unfold messages_ticket_ids. rewrite run_io.
  rewrite query_ok by apply Hrel3. rewrite run_bind.
  rewrite (surjective_pairing (run (fetch_last_messages _ _) _)).
  rewrite run_fetch_last_messages by apply Hrel3.
  cbn [run fst data_of db advance]. rewrite Hdb3.
  unfold full_decoration. fold aids.
  f_equal. f_equal.
  by destruct (map Message.ticket_id _).
Qed.

#[global] Instance newest_message_first_total : Total newest_message_first.
Proof. intros a b. unfold newest_message_first. lia. Qed.
#[global] Instance newest_message_first_trans : Transitive newest_message_first.
Proof. intros a b c. unfold newest_message_first. lia. Qed.

Lemma getTickets_reliable_elem w userType status et :
  reliable w ->
  et ∈ fst (run (getTickets userType status) w) ->
  let ts := ticket_list (status_filter status) (owner_restriction userType w) (db w) in
  ∃ t, t ∈ ts ∧ et = full_decoration (db w) ts t.
Proof.
  intros Hrel Hin ts. rewrite getTickets_reliable in Hin by done.
  apply list_elem_of_fmap in Hin as (t & -> & Ht). eauto.
Qed.

(** X8. When no request fails, the message count of every ticket in the
    list is the number of stored messages of that ticket. *)
Theorem getTickets_message_count
  (w : World) (userType : UserType) (status : option string)
  (et : EnrichedTicket.t) :
  reliable w ->
  et ∈ fst (run (getTickets userType status) w) ->
  EnrichedTicket.message_count et =
  Some (length (filter (fun m => Message.ticket_id m
                                 = Ticket.id (EnrichedTicket.row et))
                       (messages (db w)))).
Proof.
  intros Hrel Hin.
  destruct (getTickets_reliable_elem _ _ _ _ Hrel Hin) as (t & Ht & ->).
  unfold full_decoration, decorate_ticket. cbn [EnrichedTicket.message_count
    EnrichedTicket.row]. f_equal.
  rewrite count_messages_lookup. apply count_ticket_ids.
  apply list_elem_of_fmap. eauto.
Qed.

Lemma getTickets_message_count_witness :
  EnrichedTicket.message_count
    (full_decoration sample_db [ticket1; ticket3] ticket1) = Some 3%nat.
Proof.
  apply (getTickets_message_count sample_world (Some customer) None).
  - intros n rq. reflexivity.
  - vm_compute. left.
Defined.

Lemma last_message_of_Some d k lm :
  last_message_of d k = Some lm ->
  LastMessage.row lm ∈ messages d ∧
  Message.ticket_id (LastMessage.row lm) = k ∧
  ∀ m, m ∈ messages d -> Message.ticket_id m = k ->
       Message.created_at m ≤ Message.created_at (LastMessage.row lm).
Proof.
  unfold last_message_of.
  pose proof (StronglySorted_merge_sort newest_message_first
                (filter (fun m => Message.ticket_id m = k) (messages d))) as Hs.
  pose proof (merge_sort_Permutation newest_message_first
                (filter (fun m => Message.ticket_id m = k) (messages d))) as Hp.
  destruct (merge_sort _ _) as [|x l]; [done|].
  simpl. intros [= <-]. simpl.
  assert (Hx : x ∈ filter (fun m => Message.ticket_id m = k) (messages d)).
  { rewrite <- Hp. by left. }
  apply list_elem_of_filter in Hx as [Hk Hx]. split; [done|]. split; [done|].
  intros m Hm Hmk.
  assert (Hin : m ∈ x :: l).
  { rewrite Hp. apply list_elem_of_filter. done. }
  apply elem_of_cons in Hin as [->|Hin]; [lia|].
  apply StronglySorted_inv in Hs as [_ Hall].
  rewrite Forall_forall in Hall. by apply Hall.
Qed.

Lemma last_message_of_None d k :
  last_message_of d k = None ->
  ∀ m, m ∈ messages d -> Message.ticket_id m ≠ k.
Proof.
  unfold last_message_of.
  pose proof (merge_sort_Permutation newest_message_first
                (filter (fun m => Message.ticket_id m = k) (messages d))) as Hp.
  destruct (merge_sort _ _) as [|x l]; [|done].
  intros _ m Hm Hk.
  assert (Hin : m ∈ filter (fun m => Message.ticket_id m = k) (messages d)).
  { apply list_elem_of_filter. done. }
  rewrite <- Hp in Hin. by apply elem_of_nil in Hin.
Qed.

(** X9. When no request fails, the last message shown for a ticket of the
    list is a stored message of that ticket and none of its messages is
    newer; a ticket shown without a last message has no stored message.
    The list never carries the thread itself. *)
Theorem getTickets_last_message_is_latest
  (w : World) (userType : UserType) (status : option string)
  (et : EnrichedTicket.t) :
  reliable w ->
  et ∈ fst (run (getTickets userType status) w) ->
  match EnrichedTicket.last_message et with
  | Some lm =>
      LastMessage.row lm ∈ messages (db w) ∧
      Message.ticket_id (LastMessage.row lm) = Ticket.id (EnrichedTicket.row et) ∧
      ∀ m, m ∈ messages (db w) ->
           Message.ticket_id m = Ticket.id (EnrichedTicket.row et) ->
           Message.created_at m ≤ Message.created_at (LastMessage.row lm)
  | None =>
      ∀ m, m ∈ messages (db w) ->
           Message.ticket_id m ≠ Ticket.id (EnrichedTicket.row et)
  end ∧
  EnrichedTicket.messages et = [].
Proof.
  intros Hrel Hin.
  destruct (getTickets_reliable_elem _ _ _ _ Hrel Hin) as (t & Ht & ->).
  split; [|done].
  unfold full_decoration, decorate_ticket.
  cbn [EnrichedTicket.last_message EnrichedTicket.row].
  rewrite foldl_last_lookup, lookup_empty.
  rewrite bool_decide_eq_true_2 by (apply list_elem_of_fmap; eauto).
  destruct (last_message_of (db w) (Ticket.id t)) as [lm|] eqn:Hl.
  - by apply last_message_of_Some.
  - by apply last_message_of_None.
Qed.

Lemma getTickets_last_message_is_latest_witness :
  match EnrichedTicket.last_message
          (full_decoration sample_db [ticket1; ticket3] ticket1) with
  | Some lm =>
      LastMessage.row lm ∈ messages sample_db ∧
      Message.ticket_id (LastMessage.row lm) = "t1" ∧
      ∀ m, m ∈ messages sample_db -> Message.ticket_id m = "t1" ->
           Message.created_at m ≤ Message.created_at (LastMessage.row lm)
  | None => ∀ m, m ∈ messages sample_db -> Message.ticket_id m ≠ "t1"
  end ∧
  EnrichedTicket.messages (full_decoration sample_db [ticket1; ticket3] ticket1) = [].
Proof.
  apply (getTickets_last_message_is_latest sample_world (Some customer) None).
  - intros n rq. reflexivity.
  - vm_compute. left.
Defined.

(** X10. A customer profile attached to a ticket of the list is a stored
    profile whose id is the ticket's owner, whichever requests fail; and
    when none fails, the ticket carries the (last) stored profile of its
    owner, if there is one, and likewise for its assignee. *)
Theorem getTickets_profiles_belong_to_the_ticket
  (w : World) (userType : UserType) (status : option string)
  (et : EnrichedTicket.t) :
  et ∈ fst (run (getTickets userType status) w) ->
  (∀ p, EnrichedTicket.customer et = Some p ->
        p ∈ profiles (db w) ∧
        Profile.id p = Ticket.customer_id (EnrichedTicket.row et)) ∧
  (reliable w ->
   EnrichedTicket.customer et =
     last (profile_rows (Ticket.customer_id (EnrichedTicket.row et)) (db w)) ∧
   EnrichedTicket.assigned_to_profile et =
     match assignee (EnrichedTicket.row et) with
     | Some a => last (profile_rows a (db w))
     | None => None
     end).
Proof.
  intros Hin. split.
  - pose proof (getTickets_result w userType status) as H. cbv zeta in H.
    destruct (fault w (tick w) _).
    { rewrite H in Hin. by apply elem_of_nil in Hin. }
    destruct H as (am & mm & lm & H). rewrite H in Hin.
    apply list_elem_of_fmap in Hin as (t & -> & Ht).
    intros p. unfold decorate_ticket, customer_lookup.
    cbn [EnrichedTicket.customer EnrichedTicket.row].
    destruct (fault w (S (tick w)) _); [by rewrite lookup_empty|].
    intros Hp. apply profile_map_lookup_Some in Hp as [Hp Hid].
    apply list_elem_of_filter in Hp as [_ Hp]. done.
  - intros Hrel.
    destruct (getTickets_reliable_elem _ _ _ _ Hrel Hin) as (t & Ht & ->).
    unfold full_decoration, decorate_ticket.
    cbn [EnrichedTicket.customer EnrichedTicket.assigned_to_profile
         EnrichedTicket.row].
    split.
    + rewrite profile_map_lookup, filter_filter_in; [done|].
      apply distinct_elem_of, list_elem_of_fmap. eauto.
    + destruct (assignee t) as [a|] eqn:Ha; [|done].
      rewrite profile_map_lookup, filter_filter_in; [done|].
      apply distinct_elem_of, list_elem_of_omap. eauto.
Qed.

Lemma getTickets_profiles_belong_to_the_ticket_witness :
  (∀ p, EnrichedTicket.customer
          (full_decoration sample_db [ticket1; ticket3] ticket1) = Some p ->
        p ∈ profiles sample_db ∧ Profile.id p = "u-alice") ∧
  (reliable sample_world ->
   EnrichedTicket.customer (full_decoration sample_db [ticket1; ticket3] ticket1)
     = last (profile_rows "u-alice" sample_db) ∧
   EnrichedTicket.assigned_to_profile
     (full_decoration sample_db [ticket1; ticket3] ticket1)
     = match assignee ticket1 with
       | Some a => last (profile_rows a sample_db)
       | None => None
       end).
Proof.
  apply (getTickets_profiles_belong_to_the_ticket sample_world (Some customer) None).
  vm_compute. left.
Defined.

(** ** Updating a ticket *)

(** X11. [updateTicket] on an id that no ticket row carries returns nothing
    and leaves the store as it is, whatever the fields and the oracle. *)
Theorem updateTicket_unknown_ticket
  (w : World) (ticketId : string) (updates : TicketUpdates.t) :
  ticket_rows ticketId (db w) = [] ->
  fst (run (updateTicket ticketId updates) w) = None ∧
  db (snd (run (updateTicket ticketId updates) w)) = db w.
Proof.
  intros Hrows. rewrite run_updateTicket. cbv zeta.
  destruct (fault w (tick w) _); [done|]. by rewrite Hrows.
Qed.

Lemma updateTicket_unknown_ticket_witness :
  fst (run (updateTicket "t9" (status_update resolved)) sample_world) = None ∧
  db (snd (run (updateTicket "t9" (status_update resolved)) sample_world))
    = db sample_world.
Proof. apply (updateTicket_unknown_ticket sample_world "t9"). reflexivity. Defined.





(** ** Threads *)

Lemma run_single_ok {A} rq (rows : Db -> list A) w :
  reliable w ->
  run (io (round_trip rq (fun w => (single (rows (db w)), db w)))) w
  = (single (rows (db w)), advance rq w).
Proof.
  intros Hrel. rewrite run_io, round_trip_ok by apply Hrel. simpl.
  by rewrite set_db_same.
Qed.

Lemma run_fetch_sender_profiles ms w :
  reliable w ->
  ∃ w', reliable w' ∧ db w' = db w ∧
    run (fetch_sender_profiles (Some ms)) w =
    (profile_map (filter (fun p => Profile.id p ∈ distinct (map Message.sender_id ms))
                         (profiles (db w))), w').
Proof.
  intros Hrel. destruct ms as [|m l].
  - exists w. by rewrite filter_elem_of_nil.
  - unfold fetch_sender_profiles, profiles_in_id.
    rewrite run_bind, run_io, query_ok by apply Hrel.
    eexists. split; [|split; [|reflexivity]]; done.
Qed.

Lemma filter_attachments_nil (l : list Attachment.t) :
  filter (fun a => Attachment.message_id a ∈ @nil string) l = [].
Proof.
  induction l as [|a l IH]; [done|].
  rewrite filter_cons_False; [done|]. apply not_elem_of_nil.
Qed.

Lemma run_fetch_attachments ms w :
  reliable w ->
  ∃ w', reliable w' ∧ db w' = db w ∧
    run (fetch_attachments (Some ms)) w =
    (group_attachments
       (filter (fun a => Attachment.message_id a ∈ map Message.id ms)
               (attachments (db w))), w').
Proof.
  intros Hrel. destruct ms as [|m l].
  - exists w. by rewrite filter_attachments_nil.
  - unfold fetch_attachments, attachments_in.
    rewrite run_bind, run_io, query_ok by apply Hrel.
    eexists. split; [|split; [|reflexivity]]; done.
Qed.

(** [getMessages] when no request fails. *)
Lemma getMessages_reliable w ticketId :
  reliable w ->
  fst (run (getMessages ticketId) w) = thread_of (db w) ticketId.
Proof.
  intros Hrel. unfold getMessages, messages_select.
  rewrite run_bind, run_io, query_ok by apply Hrel.
  rewrite run_bind.
  destruct (run_fetch_sender_profiles (ticket_messages ticketId (db w))
              (advance (SelectMessages ticketId) w)) as (w1 & Hr1 & Hd1 & ->);
    [done|].
  rewrite run_bind.
  destruct (run_fetch_attachments (ticket_messages ticketId (db w)) w1)
    as (w2 & Hr2 & Hd2 & ->); [done|].
  simpl. by rewrite Hd1.
Qed.

(** [getTicket] on an existing ticket when no request fails. *)
Lemma getTicket_reliable w ticketId t :
  reliable w ->
  ticket_rows ticketId (db w) = [t] ->
  ∃ w', reliable w' ∧ db w' = db w ∧
    run (getTicket ticketId) w =
    (Some (EnrichedTicket.mk t
             (data_of (single (profile_rows (Ticket.customer_id t) (db w))))
             (match assignee t with
              | Some a => data_of (single (profile_rows a (db w)))
              | None => None
              end)
             None None (thread_of (db w) ticketId) false), w').
Proof.
  intros Hrel Hrows. unfold getTicket, tickets_eq_id_single.
  rewrite run_bind, run_single_ok by done. rewrite Hrows. cbn [single].
  unfold profiles_eq_id_single at 1.
  rewrite run_bind, run_single_ok by apply Hrel. rewrite run_bind.
  set (w2 := advance _ (advance _ w)).
  assert (Hassigned : ∃ w3, reliable w3 ∧ db w3 = db w ∧
    run (match assignee t with
         | Some a =>
             await pr := profiles_eq_id_single a in Return (data_of pr)
         | None => Return None
         end) w2
    = (match assignee t with
       | Some a => data_of (single (profile_rows a (db w)))
       | None => None
       end, w3)).
  { destruct (assignee t) as [a|].
    - unfold profiles_eq_id_single.
      rewrite run_bind, run_single_ok by apply Hrel.
      eexists. split; [|split; [|reflexivity]]; done.
    - by exists w2. }
  destruct Hassigned as (w3 & Hr3 & Hd3 & ->).
  unfold messages_select. rewrite run_bind, run_io, query_ok by apply Hr3.
  cbn [data_of]. rewrite run_bind.
  destruct (run_fetch_sender_profiles (ticket_messages ticketId (db w3))
              (advance (SelectMessages ticketId) w3)) as (w4 & Hr4 & Hd4 & ->);
    [done|].
  rewrite run_bind.
  destruct (run_fetch_attachments (ticket_messages ticketId (db w3)) w4)
    as (w5 & Hr5 & Hd5 & ->); [done|].
  exists w5. split; [done|]. split; [by rewrite Hd5, Hd4|].
  simpl. rewrite Hd4. cbn [db advance]. by rewrite Hd3.
Qed.

(** X13. For an existing ticket and with no failing request, the thread
    [getTicket] attaches to the ticket is the list [getMessages] returns for
    that ticket: same messages, same order, same senders and attachments. *)
Theorem getTicket_and_getMessages_agree
  (w : World) (ticketId : string) (t : Ticket.t) :
  reliable w ->
  ticket_rows ticketId (db w) = [t] ->
  ∃ et, fst (run (getTicket ticketId) w) = Some et ∧
        EnrichedTicket.row et = t ∧
        EnrichedTicket.messages et = fst (run (getMessages ticketId) w).
Proof.
  intros Hrel Hrows.
  destruct (getTicket_reliable w ticketId t Hrel Hrows) as (w' & _ & _ & ->).
  eexists. split; [reflexivity|]. split; [done|].
  by rewrite getMessages_reliable.
Qed.

Lemma getTicket_and_getMessages_agree_witness :
  ∃ et, fst (run (getTicket "t1") sample_world) = Some et ∧
        EnrichedTicket.row et = ticket1 ∧
        EnrichedTicket.messages et = fst (run (getMessages "t1") sample_world).
Proof.
  apply (getTicket_and_getMessages_agree sample_world "t1" ticket1).
  - intros n rq. reflexivity.
  - reflexivity.
Defined.

Lemma foldl_group_lookup (rows : list Attachment.t)
  (m0 : gmap string (list Attachment.t)) k :
  default [] (foldl (fun m a =>
                       <[Attachment.message_id a :=
                           default [] (m !! Attachment.message_id a) ++ [a]]> m)
                    m0 rows !! k)
  = default [] (m0 !! k) ++ filter (fun a => Attachment.message_id a = k) rows.
Proof.
  revert m0. induction rows as [|a rows IH]; intros m0.
  - simpl. by rewrite app_nil_r.
  - simpl foldl. rewrite IH.
    destruct (decide (Attachment.message_id a = k)) as [Hk|Hk].
    + rewrite filter_cons_True by done. rewrite Hk, lookup_insert_eq. simpl.
      by rewrite <- app_assoc.
    + rewrite filter_cons_False by done. by rewrite lookup_insert_ne.
Qed.

Lemma filter_filter_attachments (l : list Attachment.t) (ids : list string) k :
  k ∈ ids ->
  filter (fun a => Attachment.message_id a = k)
    (filter (fun a => Attachment.message_id a ∈ ids) l)
  = filter (fun a => Attachment.message_id a = k) l.
Proof.
  intros Hk. induction l as [|a l IH]; [done|].
  destruct (decide (Attachment.message_id a = k)) as [Ha|Ha].
  - rewrite (filter_cons_True (fun a => Attachment.message_id a ∈ ids))
      by (by rewrite Ha).
    rewrite !filter_cons_True by done. by rewrite IH.
  - rewrite (filter_cons_False (fun a => Attachment.message_id a = k) a l) by done.
    destruct (decide (Attachment.message_id a ∈ ids)).
    + rewrite filter_cons_True by done. by rewrite filter_cons_False.
    + by rewrite filter_cons_False.
Qed.

Lemma ticket_messages_elem ticketId d m :
  m ∈ ticket_messages ticketId d ↔ m ∈ messages d ∧ Message.ticket_id m = ticketId.
Proof.
  unfold ticket_messages. rewrite merge_sort_Permutation, list_elem_of_filter.
  tauto.
Qed.

(** X14. When no request fails, every message [getMessages] returns is a
    stored message of the requested ticket, carries exactly the stored
    attachments whose [message_id] is its id, in stored order, and the
    (last) stored profile of its sender, if there is one. *)
Theorem getMessages_decoration
  (w : World) (ticketId : string) (em : EnrichedMessage.t) :
  reliable w ->
  em ∈ fst (run (getMessages ticketId) w) ->
  EnrichedMessage.row em ∈ messages (db w) ∧
  Message.ticket_id (EnrichedMessage.row em) = ticketId ∧
  EnrichedMessage.attachments em =
    filter (fun a => Attachment.message_id a = Message.id (EnrichedMessage.row em))
           (attachments (db w)) ∧
  EnrichedMessage.sender em =
    last (profile_rows (Message.sender_id (EnrichedMessage.row em)) (db w)).
Proof.
  intros Hrel Hin. rewrite getMessages_reliable in Hin by done.
  unfold thread_of in Hin. apply list_elem_of_fmap in Hin as (m & -> & Hm).
  unfold decorate_message.
  cbn [EnrichedMessage.row EnrichedMessage.attachments EnrichedMessage.sender].
  pose proof Hm as Hm'. apply ticket_messages_elem in Hm' as [H1 H2].
  split; [done|]. split; [done|]. split.
  - unfold group_attachments. rewrite foldl_group_lookup, lookup_empty. simpl.
    apply filter_filter_attachments, list_elem_of_fmap. eauto.
  - rewrite profile_map_lookup, filter_filter_in; [done|].
    apply distinct_elem_of, list_elem_of_fmap. eauto.
Qed.

Lemma getMessages_decoration_witness :
  message1 ∈ messages sample_db ∧
  Message.ticket_id message1 = "t1" ∧
  [attachment1] =
    filter (fun a => Attachment.message_id a = "m1") (attachments sample_db) ∧
  Some alice = last (profile_rows "u-alice" sample_db).
Proof.
  apply (getMessages_decoration sample_world "t1"
           (EnrichedMessage.mk message1 (Some alice) [attachment1])).
  - intros n rq. reflexivity.
  - vm_compute. left.
Defined.

(** X15. [getMessages] makes one request when the message query fails or
    finds no message, and three otherwise (messages, senders, attachments),
    however long the thread is and whichever of them fail; a failed message
    query yields the empty list. *)
Theorem getMessages_requests (w : World) (ticketId : string) :
  log (snd (run (getMessages ticketId) w)) =
  log w ++ SelectMessages ticketId ::
    match fault w (tick w) (SelectMessages ticketId) with
    | Some _ => []
    | None =>
        match ticket_messages ticketId (db w) with
        | [] => []
        | m :: l =>
            [SelectProfilesInId (distinct (map Message.sender_id (m :: l)));
             SelectAttachmentsIn (map Message.id (m :: l))]
        end
    end ∧
  (∀ e, fault w (tick w) (SelectMessages ticketId) = Some e ->
        fst (run (getMessages ticketId) w) = []).
Proof.
  unfold getMessages, messages_select. rewrite !run_bind, run_io.
  destruct (fault w (tick w) (SelectMessages ticketId)) as [e|] eqn:Hf.
  - rewrite query_fail with (e := e) by done. by split.
  - rewrite query_ok by done. split; [|done].
    destruct (ticket_messages ticketId (db w)) as [|m l]; [done|].
    match goal with |- log (snd (run ?t ?w0)) = _ =>
      assert (H : issues t
        [SelectProfilesInId (distinct (map Message.sender_id (m :: l)));
         SelectAttachmentsIn (map Message.id (m :: l))])
    end.
    { apply (issues_bind _ _ [_] [_]).
      - unfold fetch_sender_profiles.
        rewrite <- (app_nil_r [_]). apply issues_bind; [apply issues_query|].
        intros [?|?]; apply issues_return.
      - intros sp. rewrite <- (app_nil_r [_]). apply issues_bind.
        + unfold fetch_attachments.
          rewrite <- (app_nil_r [_]). apply issues_bind; [apply issues_query|].
          intros [?|?]; apply issues_return.
        + intros am. apply issues_return. }
    rewrite H. simpl. by rewrite <- app_assoc.
Qed.

(** ** Round trips *)

Lemma merge_sort_singleton {A} (R : relation A) `{!RelDecision R} (x : A) :
  merge_sort R [x] = [x].
Proof. reflexivity. Qed.

Lemma merge_sort_nil {A} (R : relation A) `{!RelDecision R} :
  merge_sort R [] = [].
Proof. reflexivity. Qed.

Lemma thread_of_rows d ticketId :
  map EnrichedMessage.row (thread_of d ticketId) = ticket_messages ticketId d.
Proof. unfold thread_of. apply map_decorate_message_rows. Qed.

(** X16. With no failing request and a ticket id the server has not used
    before, [createTicket] followed by [getTicket] on the returned id yields
    the ticket with the given subject, owner, priority and category and
    status open, and its thread is exactly the initial message, sent by the
    owner, or empty when the initial message is empty. *)
Theorem createTicket_then_getTicket
  (w : World) (subject customerId : string) (priority : Priority)
  (category initialMessage : string) :
  reliable w ->
  ticket_rows (uuid w (tick w)) (db w) = [] ->
  (∀ m, m ∈ messages (db w) -> Message.ticket_id m ≠ uuid w (tick w)) ->
  let '(r, w1) :=
    run (createTicket subject customerId priority category initialMessage) w in
  ∃ t et,
    r = Some t ∧
    fst (run (getTicket (Ticket.id t)) w1) = Some et ∧
    EnrichedTicket.row et = t ∧
    Ticket.subject t = subject ∧ Ticket.customer_id t = customerId ∧
    Ticket.priority t = priority ∧ Ticket.category t = category ∧
    Ticket.status t = open ∧
    map EnrichedMessage.row (EnrichedTicket.messages et) =
      if bool_decide (initialMessage = "") then []
      else [Message.mk (uuid w (S (tick w))) (Ticket.id t) customerId
              initialMessage (now w + 1)].
Proof.
  intros Hrel Hfresh Hnomsg.
  set (t := Ticket.mk (uuid w (tick w)) subject customerId open priority
              category None (now w) (now w)).
  assert (Hfilter : filter (fun m => Message.ticket_id m = uuid w (tick w))
                      (messages (db w)) = []).
  { destruct (filter _ (messages (db w))) as [|m l] eqn:Hf; [done|].
    assert (Hm : m ∈ filter (fun m => Message.ticket_id m = uuid w (tick w))
                   (messages (db w))) by (rewrite Hf; left).
    apply list_elem_of_filter in Hm as [Hm1 Hm2]. by apply Hnomsg in Hm2. }
  unfold createTicket, tickets_insert.
  rewrite run_bind, run_io, round_trip_ok by apply Hrel. cbn [fst snd].
  rewrite run_bind. unfold truthy.
  case_bool_decide as Hmsg; cbn [negb].
  - cbn [run]. fold t.
    match goal with |- context [run (getTicket _) ?w0] => set (w1 := w0) end.
    assert (Hrows1 : ticket_rows (Ticket.id t) (db w1) = [t]).
    { unfold ticket_rows in *. subst w1. cbn [db advance set_db tickets Ticket.id t].
      rewrite filter_app, Hfresh. simpl. by rewrite filter_cons_True. }
    destruct (getTicket_reliable w1 (Ticket.id t) t) as (w2 & _ & _ & Hrun);
      [done|done|].
    exists t. eexists. split; [done|]. rewrite Hrun. split; [reflexivity|].
    cbn [EnrichedTicket.row EnrichedTicket.messages]. repeat split.
    rewrite thread_of_rows. unfold ticket_messages. subst w1.
    cbn [db advance set_db messages Ticket.id t]. by rewrite Hfilter.
  - rewrite run_bind, run_messages_insert.
    cbn [fault advance set_db tick]. rewrite (Hrel _ _). cbn [run snd]. fold t.
    match goal with |- context [run (getTicket _) ?w0] => set (w1 := w0) end.
    assert (Hrows1 : ticket_rows (Ticket.id t) (db w1) = [t]).
    { unfold ticket_rows in *. subst w1.
      cbn [db advance set_db add_message tickets Ticket.id t].
      rewrite filter_app, Hfresh. simpl. by rewrite filter_cons_True. }
    destruct (getTicket_reliable w1 (Ticket.id t) t) as (w2 & _ & _ & Hrun);
      [done|done|].
    exists t. eexists. split; [done|]. rewrite Hrun. split; [reflexivity|].
    cbn [EnrichedTicket.row EnrichedTicket.messages]. repeat split.
    rewrite thread_of_rows. unfold ticket_messages. subst w1.
    cbn [db advance set_db add_message messages Ticket.id t].
    rewrite filter_app, Hfilter. cbn [app].
    rewrite filter_cons_True by done. rewrite filter_nil.
    rewrite merge_sort_singleton. unfold new_message, now.
    cbn [uuid tick advance set_db]. by rewrite Nat2Z.inj_succ.
Qed.

Lemma createTicket_then_getTicket_witness :
  let '(r, w1) :=
    run (createTicket "No sound" "u-bob" medium "hardware" "It is silent.")
        sample_world in
  ∃ t et,
    r = Some t ∧
    fst (run (getTicket (Ticket.id t)) w1) = Some et ∧
    EnrichedTicket.row et = t ∧
    Ticket.subject t = "No sound" ∧ Ticket.customer_id t = "u-bob" ∧
    Ticket.priority t = medium ∧ Ticket.category t = "hardware" ∧
    Ticket.status t = open ∧
    map EnrichedMessage.row (EnrichedTicket.messages et) =
      if bool_decide ("It is silent." = "") then []
      else [Message.mk (uuid sample_world 11%nat) (Ticket.id t) "u-bob"
              "It is silent." (now sample_world + 1)].
Proof.
  apply (createTicket_then_getTicket sample_world "No sound" "u-bob" medium
           "hardware" "It is silent.").
  - intros n rq. reflexivity.
  - reflexivity.
  - intros m Hm. vm_compute in Hm.
    repeat (apply elem_of_cons in Hm as [->|Hm]; [discriminate|]).
    by apply elem_of_nil in Hm.
Defined.

Lemma createMessage_reliable w ticketId senderId content :
  reliable w ->
  ∃ w1, run (createMessage ticketId senderId content) w
          = (Some (new_message ticketId senderId content w), w1) ∧
        reliable w1 ∧
        messages (db w1) = messages (db w)
                           ++ [new_message ticketId senderId content w] ∧
        profiles (db w1) = profiles (db w) ∧
        attachments (db w1) = attachments (db w) ∧
        log w1 = log w ++ [InsertMessage ticketId senderId content;
                           UpdateTicket ticketId (only_updated_at (now w + 1))] ∧
        tickets (db w1) =
          match ticket_rows ticketId (db w) with
          | [_] =>
              map (fun r => if bool_decide (Ticket.id r = ticketId)
                            then TicketUpdates.apply (only_updated_at (now w + 1)) r
                            else r) (tickets (db w))
          | _ => tickets (db w)
          end.
Proof.
  intros Hrel. unfold createMessage, messages_insert_single.
  rewrite run_bind, run_io, round_trip_ok by apply Hrel. cbn [fst snd].
  rewrite run_bind, run_updateTicket. cbv zeta.
  cbn [fault advance set_db tick]. rewrite (Hrel _ _).
  assert (Hnow : now (advance (InsertMessage ticketId senderId content)
                        (set_db (add_message
                                   (new_message ticketId senderId content w)
                                   (db w)) w)) = now w + 1).
  { unfold now. cbn [tick advance set_db]. by rewrite Nat2Z.inj_succ. }
  rewrite Hnow.
  change (TicketUpdates.with_updated_at TicketUpdates.empty (now w + 1))
    with (only_updated_at (now w + 1)).
  change (ticket_rows ticketId (db (advance _ (set_db (add_message _ (db w)) w))))
    with (ticket_rows ticketId (db w)).
  destruct (ticket_rows ticketId (db w)) as [|t [|t' l]]; eexists;
    (split; [reflexivity|]); (split; [done|]);
    cbn [log db advance set_db add_message messages profiles attachments tickets];
    repeat split; by rewrite <- app_assoc.
Qed.

Lemma thread_of_other d d' ticketId :
  filter (fun m => Message.ticket_id m = ticketId) (messages d')
    = filter (fun m => Message.ticket_id m = ticketId) (messages d) ->
  profiles d' = profiles d -> attachments d' = attachments d ->
  thread_of d' ticketId = thread_of d ticketId.
Proof.
  intros Hm Hp Ha. unfold thread_of, ticket_messages. by rewrite Hm, Hp, Ha.
Qed.

(** X17. With no failing request, a reply adds exactly one message to the
    thread of its ticket: the thread [getMessages] returns afterwards holds
    the messages it held before and the new message, and the thread of every
    other ticket is what it was. *)
Theorem createMessage_adds_one_message
  (w : World) (ticketId senderId content : string) :
  reliable w ->
  let '(r, w1) := run (createMessage ticketId senderId content) w in
  ∃ m, r = Some m ∧
       Message.ticket_id m = ticketId ∧ Message.sender_id m = senderId ∧
       Message.content m = content ∧
       map EnrichedMessage.row (fst (run (getMessages ticketId) w1))
         ≡ₚ m :: map EnrichedMessage.row (fst (run (getMessages ticketId) w)) ∧
       (∀ k, k ≠ ticketId ->
             fst (run (getMessages k) w1) = fst (run (getMessages k) w)).
Proof.
  intros Hrel.
  destruct (createMessage_reliable w ticketId senderId content Hrel)
    as (w1 & -> & Hrel1 & Hm & Hp & Ha & _).
  eexists. split; [reflexivity|]. repeat split.
  - rewrite !getMessages_reliable, !thread_of_rows by done.
    unfold ticket_messages. rewrite !merge_sort_Permutation, Hm, filter_app.
    rewrite filter_cons_True by done. rewrite filter_nil.
    by rewrite <- Permutation_cons_append.
  - intros k Hk. rewrite !getMessages_reliable by done.
    apply thread_of_other; [|done|done].
    rewrite Hm, filter_app, filter_cons_False, filter_nil by (simpl; congruence).
    by rewrite app_nil_r.
Qed.

Lemma createMessage_adds_one_message_witness :
  let '(r, w1) := run (createMessage "t2" "u-bob" "Any news?") sample_world in
  ∃ m, r = Some m ∧
       Message.ticket_id m = "t2" ∧ Message.sender_id m = "u-bob" ∧
       Message.content m = "Any news?" ∧
       map EnrichedMessage.row (fst (run (getMessages "t2") w1))
         ≡ₚ m :: map EnrichedMessage.row (fst (run (getMessages "t2") sample_world)) ∧
       (∀ k, k ≠ "t2" ->
             fst (run (getMessages k) w1) = fst (run (getMessages k) sample_world)).
Proof.
  apply (createMessage_adds_one_message sample_world "t2" "u-bob" "Any news?").
  intros n rq. reflexivity.
Defined.

(** ** The coordinator's life *)

(** X18. Initialisation always ends ready: whatever the session, the stored
    profiles and the failures of the backend, after [initializeAuth] the
    coordinator is initialised and no longer loading. *)
Theorem initializeAuth_always_ends_ready (w : World) :
  isInitialized (auth (snd (run initializeAuth w))) = true ∧
  isLoading (auth (snd (run initializeAuth w))) = false.
Proof.
  unfold initializeAuth.
  rewrite run_bind. destruct (run auth_getSession w) as [cs w1].
  rewrite run_bind. destruct (run (setSession cs) w1) as [? w2].
  rewrite run_bind. destruct (run (setUser _) w2) as [? w3].
  rewrite run_bind. destruct (run _ w3) as [? w4].
  by split.
Qed.

(** X19. A sign-out event (a change to no session) clears session, user,
    profile and role, issues no request, and once the coordinator is ready
    the navigation effect sends every location that is not root and does not
    begin with /register or /forgot-password to root. *)
Theorem sign_out_event_clears_identity (w : World) :
  let w' := snd (run (onAuthStateChange_callback None) w) in
  session (auth w') = None ∧ user (auth w') = None ∧
  profile (auth w') = None ∧ userType (auth w') = None ∧
  isAuthenticated (auth w') = false ∧
  log w' = log w ∧ db w' = db w ∧
  (isInitialized (auth w) = true -> isLoading (auth w) = false ->
   ∀ hash,
     pathname_of hash ≠ "/" ->
     startsWith (pathname_of hash) "/register" = false ->
     startsWith (pathname_of hash) "/forgot-password" = false ->
     navigation_effect (auth w') hash = Some "/").
Proof.
  simpl. repeat split.
  intros Hi Hl hash H1 H2 H3.
  unfold navigation_effect, navigation_intent, isAuthenticated. simpl.
  rewrite Hi, Hl, H2, H3. simpl. by rewrite bool_decide_eq_false_2.
Qed.

(** X20. A session event for a user whose profile is stored (and whose
    fetch reaches the backend) makes the coordinator adopt that profile and
    its role with a single fetch and no write; once ready, the navigation
    effect then sends the login page to the dashboard of that role. *)
Theorem sign_in_event_adopts_stored_profile
  (w : World) (s : Session) (p : Profile.t) (rest : list Profile.t) :
  fault w (tick w) (SelectProfilesEqId (user_id (session_user s))) = None ->
  profile_rows (user_id (session_user s)) (db w) = p :: rest ->
  let w' := snd (run (onAuthStateChange_callback (Some s)) w) in
  session (auth w') = Some s ∧ user (auth w') = Some (session_user s) ∧
  profile (auth w') = Some p ∧ userType (auth w') = Some (Profile.user_type p) ∧
  isAuthenticated (auth w') = true ∧
  db w' = db w ∧
  log w' = log w ++ [SelectProfilesEqId (user_id (session_user s))] ∧
  (isInitialized (auth w) = true -> isLoading (auth w) = false ->
   navigation_effect (auth w') "#/"
     = Some ("/" +:+ role_str (Profile.user_type p))).
Proof.
  intros Hok Hrows w'. subst w'.
  unfold onAuthStateChange_callback, fetchOrCreateProfile.
  rewrite run_bind. cbn [run setSession sync io].
  rewrite run_bind. cbn [run setUser sync io].
  rewrite run_bind, run_bind. cbn [run delay sync io].
  rewrite run_bind, run_getProfile.
  cbn [fault tick db set_auth]. rewrite Hok, Hrows. simpl.
  repeat split.
  intros Hi Hl. unfold navigation_effect. simpl. rewrite Hi, Hl.
  by destruct (Profile.user_type p).
Qed.

Lemma sign_in_event_adopts_stored_profile_witness :
  let w' := snd (run (onAuthStateChange_callback (Some alice_session)) ready_world) in
  session (auth w') = Some alice_session ∧
  user (auth w') = Some (session_user alice_session) ∧
  profile (auth w') = Some alice ∧ userType (auth w') = Some customer ∧
  isAuthenticated (auth w') = true ∧
  db w' = db ready_world ∧
  log w' = log ready_world ++ [SelectProfilesEqId "u-alice"] ∧
  (isInitialized (auth ready_world) = true -> isLoading (auth ready_world) = false ->
   navigation_effect (auth w') "#/" = Some ("/" +:+ role_str customer)).
Proof.
  apply (sign_in_event_adopts_stored_profile ready_world alice_session alice []);
    reflexivity.
Defined.

Lemma run_bind_pair {A B} (m : Async A) (f : A -> Async B) (w : World) :
  run (bind m f) w = run (f (fst (run m w))) (snd (run m w)).
Proof. rewrite run_bind. by destruct (run m w). Qed.

#[global] Instance only_loading_differs_refl : Reflexive only_loading_differs.
Proof. by intros w. Qed.
#[global] Instance only_loading_differs_trans : Transitive only_loading_differs.
Proof.
  intros a b c [(H1 & H2 & H3 & H4) Hi] [(H5 & H6 & H7 & H8) Hi'].
  repeat split; congruence.
Qed.

Lemma round_trip_only_loading {A} rq (exec : World -> Response A * Db) w :
  only_loading_differs w (snd (round_trip rq exec w)).
Proof.
  unfold round_trip. destruct (fault w (tick w) rq); [done|].
  by destruct (exec w).
Qed.

Lemma getProfile_only_loading userId :
  preserves only_loading_differs (getProfile userId).
Proof.
  unfold getProfile. apply preserves_bind.
  - apply preserves_io. intros w. apply round_trip_only_loading.
  - by intros [[|p l]|e].
Qed.

Lemma createProfile_only_loading userId email userType :
  preserves only_loading_differs (createProfile userId email userType).
Proof.
  unfold createProfile. apply preserves_bind.
  - apply getProfile_only_loading.
  - intros [p|]; [done|]. apply preserves_bind.
    + apply preserves_io. intros w. apply round_trip_only_loading.
    + intros [d|e]; [done|]. case_bool_decide; [|done].
      apply getProfile_only_loading.
Qed.

Lemma signUp_only_loading email password userType :
  preserves only_loading_differs (signUp email password userType).
Proof.
  unfold signUp. apply preserves_bind; [by repeat split|]. intros _.
  apply preserves_bind; [by repeat split|]. intros r.
  apply preserves_bind; [|intros ?; by repeat split].
  destruct r as [[u|]|e]; try done.
  apply preserves_bind; [apply createProfile_only_loading|done].
Qed.

(** X21. [signUp] never signs the user in: session, user, profile and role
    of the coordinator are what they were, as is the initialised flag, and
    it always ends with the loading flag off, whatever the auth service and
    the backend answer. *)
Theorem signUp_does_not_authenticate
  (w : World) (email password : string) (userType : Role) :
  let w' := snd (run (signUp email password userType) w) in
  same_identity w w' ∧
  isInitialized (auth w') = isInitialized (auth w) ∧
  isLoading (auth w') = false.
Proof.
  cbv zeta.
  pose proof (preserves_run only_loading_differs _ w
                (signUp_only_loading email password userType)) as [H1 H2].
  split; [done|]. split; [done|].
  unfold signUp. rewrite !run_bind_pair. reflexivity.
Qed.

(** X22. Without a usable email, profile resolution only looks: it makes the
    one fetch, returns what the fetch found, and neither inserts nor changes
    the store, so a user without a profile stays without one. *)
Theorem fetchOrCreateProfile_without_email
  (w : World) (userId : string) (userEmail : option string) :
  truthy userEmail = false ->
  let '(r, w') := run (fetchOrCreateProfile userId userEmail) w in
  r = match fault w (tick w) (SelectProfilesEqId userId) with
      | Some _ => None
      | None => head (profile_rows userId (db w))
      end ∧
  db w' = db w ∧
  log w' = log w ++ [SelectProfilesEqId userId] ∧
  (r = None -> profile (auth w') = profile (auth w)).
Proof.
  intros Hfalsy. unfold fetchOrCreateProfile.
  rewrite run_bind. cbn [run delay sync io].
  rewrite run_bind, run_getProfile.
  destruct (match fault w (tick w) _ with Some _ => None | None => _ end) as [p|].
  - simpl. repeat split. done.
  - destruct userEmail as [email|]; [|done]. by rewrite Hfalsy.
Qed.

Lemma fetchOrCreateProfile_without_email_witness :
  let '(r, w') := run (fetchOrCreateProfile "u-carol" (Some "")) sample_world in
  r = match fault sample_world (tick sample_world) (SelectProfilesEqId "u-carol") with
      | Some _ => None
      | None => head (profile_rows "u-carol" (db sample_world))
      end ∧
  db w' = db sample_world ∧
  log w' = log sample_world ++ [SelectProfilesEqId "u-carol"] ∧
  (r = None -> profile (auth w') = profile (auth sample_world)).
Proof.
  apply (fetchOrCreateProfile_without_email sample_world "u-carol" (Some "")).
  reflexivity.
Defined.

(** ** What profile resolution may write *)

Section Grow.
Context (P : Profile.t -> Prop).

#[global] Instance profiles_grow_refl : Reflexive (profiles_grow P).
Proof. intros w. exists []. by rewrite app_nil_r. Qed.

#[global] Instance profiles_grow_trans : Transitive (profiles_grow P).
Proof.
  intros a b c (l1 & H1 & F1) (l2 & H2 & F2). exists (l1 ++ l2).
  split; [by rewrite H2, H1, app_assoc|]. by apply Forall_app.
Qed.

Lemma profiles_grow_same w w' : db w' = db w -> profiles_grow P w w'.
Proof. intros H. exists []. by rewrite H, app_nil_r. Qed.

Lemma query_profiles_grow {A} rq (rows : Db -> A) :
  preserves (profiles_grow P) (io (query rq rows)).
Proof.
  apply preserves_io. intros w. rewrite query_frame. by apply profiles_grow_same.
Qed.

Lemma getProfile_profiles_grow userId : preserves (profiles_grow P) (getProfile userId).
Proof.
  unfold getProfile. apply preserves_bind; [apply query_profiles_grow|].
  by intros [[|p l]|e].
Qed.

Lemma createProfile_profiles_grow userId email userType :
  (∀ w, P (new_profile userId email userType w)) ->
  preserves (profiles_grow P) (createProfile userId email userType).
Proof.
  intros HP. unfold createProfile.
  apply preserves_bind; [apply getProfile_profiles_grow|].
  intros [p|]; [done|]. apply preserves_bind.
  - apply preserves_io. intros w. unfold round_trip.
    destruct (fault w (tick w) _); [by apply profiles_grow_same|].
    destruct (profile_rows userId (db w)); [|by apply profiles_grow_same].
    eexists [_]. split; [reflexivity|]. by constructor.
  - intros [d|e]; [done|]. case_bool_decide; [|done].
    apply getProfile_profiles_grow.
Qed.

Lemma adopt_profiles_grow p : preserves (profiles_grow P) (adopt p).
Proof. repeat split; intros; by apply profiles_grow_same. Qed.

Lemma fetchOrCreateProfile_profiles_grow userId userEmail :
  (∀ email w, P (new_profile userId email customer w)) ->
  preserves (profiles_grow P) (fetchOrCreateProfile userId userEmail).
Proof.
  intros HP. unfold fetchOrCreateProfile.
  apply preserves_bind; [split; [intros w; by apply profiles_grow_same|done]|].
  intros _. apply preserves_bind; [apply getProfile_profiles_grow|].
  intros [p|]; [apply adopt_profiles_grow|].
  destruct userEmail as [email|]; [|done].
  destruct (truthy (Some email)); [|done].
  apply preserves_bind; [by apply createProfile_profiles_grow|].
  intros [np|]; [apply adopt_profiles_grow|].
  apply preserves_bind; [apply getProfile_profiles_grow|].
  intros [rp|]; [apply adopt_profiles_grow|done].
Qed.

End Grow.

(** X23. Profile resolution only ever appends customer profiles: whatever
    the backend answers, after [fetchOrCreateProfile], after a session event
    and after initialisation, the stored profiles are those of before, in
    place and unchanged, followed by new rows that all have role customer,
    no name and no avatar.  [signUp] only appends as well, and the rows it
    appends have the role it was asked for, be it customer or admin, no name
    and no avatar. *)
Theorem resolution_only_adds_customers
  (w : World) (userId : string) (userEmail : option string)
  (event : option Session) (email password : string) (requested : Role) :
  let P := fun p => Profile.user_type p = customer ∧
                    Profile.full_name p = None ∧ Profile.avatar_url p = None in
  profiles_grow P w (snd (run (fetchOrCreateProfile userId userEmail) w)) ∧
  profiles_grow P w (snd (run (onAuthStateChange_callback event) w)) ∧
  profiles_grow P w (snd (run initializeAuth w)) ∧
  profiles_grow (fun p => Profile.user_type p = requested ∧
                          Profile.full_name p = None ∧ Profile.avatar_url p = None)
    w (snd (run (signUp email password requested) w)).
Proof.
  intros P.
  assert (HsignUp :
    profiles_grow (fun p => Profile.user_type p = requested ∧
                            Profile.full_name p = None ∧ Profile.avatar_url p = None)
      w (snd (run (signUp email password requested) w))).
  { apply (preserves_run (profiles_grow _)). unfold signUp.
    apply preserves_bind.
    { split; [|done]. intros w0. by apply profiles_grow_same. }
    intros _. apply preserves_bind.
    { split; [|done]. intros w0. by apply profiles_grow_same. }
    intros r. apply preserves_bind.
    - destruct r as [[u|]|e]; try done.
      apply preserves_bind; [|done].
      by apply createProfile_profiles_grow.
    - intros _. split; [|done]. intros w0. by apply profiles_grow_same. }
  assert (HP : ∀ uid email w0, P (new_profile uid email customer w0)) by done.
  assert (Hsync : ∀ f : World -> World,
            (∀ w0, db (f w0) = db w0) -> preserves (profiles_grow P) (sync f)).
  { intros f Hf. split; [|done]. intros w0. apply profiles_grow_same, Hf. }
  split; [|split; [|split; [|exact HsignUp]]].
  - apply (preserves_run (profiles_grow P)).
    apply fetchOrCreateProfile_profiles_grow. intros. apply HP.
  - apply (preserves_run (profiles_grow P)). unfold onAuthStateChange_callback.
    apply preserves_bind; [by apply Hsync|]. intros _.
    apply preserves_bind; [by apply Hsync|]. intros _.
    destruct event as [s|].
    + apply preserves_bind; [|done].
      apply fetchOrCreateProfile_profiles_grow. intros. apply HP.
    + apply preserves_bind; [by apply Hsync|]. intros _. by apply Hsync.
  - apply (preserves_run (profiles_grow P)). unfold initializeAuth.
    apply preserves_bind.
    { split; [|done]. intros w0. by apply profiles_grow_same. }
    intros cs.
    apply preserves_bind; [by apply Hsync|]. intros _.
    apply preserves_bind; [by apply Hsync|]. intros _.
    apply preserves_bind.
    { destruct cs as [s|]; [|done]. apply preserves_bind; [|done].
      apply fetchOrCreateProfile_profiles_grow. intros. apply HP. }
    intros _.
    apply preserves_bind; [by apply Hsync|]. intros _.
    apply preserves_bind; [by apply Hsync|]. intros _.
    apply preserves_bind; [|done].
    split; [|done]. intros w0. by apply profiles_grow_same.
Qed.

(** ** The route guard *)

(** A location under a dashboard is not root, not public, and not under
    the other dashboard. *)
Lemma dashboard_paths_are_apart path required :
  startsWith path ("/" +:+ role_str required) = true ->
  path ≠ "/" ∧
  startsWith path "/register" = false ∧
  startsWith path "/forgot-password" = false ∧
  (required = admin -> startsWith path "/customer" = false) ∧
  (required = customer -> startsWith path "/admin" = false).
Proof.
  unfold startsWith. intros Hpath.
  assert (Hp : String.prefix (match required with
                              | admin => "/admin" | customer => "/customer"
                              end) path = true) by (by destruct required).
  clear Hpath.
  destruct path as [|c1 [|c2 rest]].
  - by destruct required.
  - destruct required; cbn [String.prefix] in Hp;
      by destruct (ascii_dec "/" c1).
  - destruct required;
      cbn [String.prefix] in Hp |- *;
      destruct (ascii_dec "/" c1) as [<-|]; try done;
      [destruct (ascii_dec "a" c2) as [<-|]; [|done]
      |destruct (ascii_dec "c" c2) as [<-|]; [|done]];
      (split; [done|]); cbn; repeat split; done.
Qed.

(** X24. The route guard shows a protected page only to an authenticated
    user whose role is the required one, and never while loading; otherwise,
    when the user is not authenticated or has a resolved role, the target it
    redirects to is the target the navigation effect computes for a location
    under the required role's dashboard. *)
Theorem ProtectedRoute_guards_and_agrees
  (authenticated : bool) (userType : UserType) (isLoading : bool)
  (required : Role) (path : string) :
  (ProtectedRoute authenticated userType isLoading (Some required) = Children
   ↔ isLoading = false ∧ authenticated = true ∧ userType = Some required) ∧
  (startsWith path ("/" +:+ role_str required) = true ->
   authenticated = false ∨ is_Some userType ->
   ∀ target,
     ProtectedRoute authenticated userType false (Some required) = NavigateTo target ->
     navigation_intent true false authenticated userType path = Some target).
Proof.
  split.
  - unfold ProtectedRoute.
    destruct isLoading, authenticated; simpl; try (split; [done|intros (?&?&?); done]).
    case_bool_decide as H.
    + split; [done|]. intros (_ & _ & ?). done.
    + split; [|done]. intros _. repeat split.
      by destruct (decide (userType = Some required)).
  - intros Hpath Hrole target.
    destruct (dashboard_paths_are_apart path required Hpath)
      as (Hne & Hr & Hf & Hc & Ha).
    unfold ProtectedRoute, navigation_intent. cbn [negb orb].
    rewrite Hr, Hf, (bool_decide_eq_false_2 _ Hne).
    destruct authenticated; cbn [negb andb].
    + destruct Hrole as [?|[r ->]]; [done|].
      case_bool_decide as Hd; [|done]. intros [= <-]. cbn [userType_str].
      destruct r, required; try done.
      * by rewrite (Ha eq_refl).
      * by rewrite (Hc eq_refl).
    + by intros [= <-].
Qed.

(** ** The ticket list view *)

Section Sort.
Context {A : Type} (compare : A -> A -> Z).

Lemma sort_insert_Permutation x l : sort_insert compare x l ≡ₚ x :: l.
Proof.
  induction l as [|y l IH]; [done|]. simpl. case_bool_decide; [done|].
  rewrite IH. apply Permutation_swap.
Qed.

Lemma js_sort_Permutation l : js_sort compare l ≡ₚ l.
Proof.
  induction l as [|x l IH]; [done|]. unfold js_sort in *. simpl.
  by rewrite sort_insert_Permutation, IH.
Qed.

Lemma sort_insert_Sorted x l :
  (∀ a b, compare a b ≤ 0 ∨ compare b a ≤ 0) ->
  Sorted (fun a b => compare a b ≤ 0) l ->
  Sorted (fun a b => compare a b ≤ 0) (sort_insert compare x l).
Proof.
  intros Htotal. induction 1 as [|y l Hl IH Hhd]; simpl.
  - by repeat constructor.
  - case_bool_decide as Hxy.
    + by repeat constructor.
    + constructor; [done|].
      destruct Hhd as [|z l Hyz]; simpl.
      * constructor. destruct (Htotal x y); [done|lia].
      * case_bool_decide; constructor; [|done].
        destruct (Htotal x y); [done|lia].
Qed.

Lemma js_sort_Sorted l :
  (∀ a b, compare a b ≤ 0 ∨ compare b a ≤ 0) ->
  Sorted (fun a b => compare a b ≤ 0) (js_sort compare l).
Proof.
  intros Htotal. induction l as [|x l IH]; [constructor|].
  unfold js_sort in *. simpl. by apply sort_insert_Sorted.
Qed.

(** A stable sort leaves a sorted list as it is. *)
Lemma js_sort_sorted l :
  Sorted (fun a b => compare a b ≤ 0) l -> js_sort compare l = l.
Proof.
  induction 1 as [|x l Hl IH Hhd]; [done|].
  unfold js_sort in *. simpl. rewrite IH.
  destruct Hhd as [|y l Hxy]; [done|]. simpl.
  by rewrite bool_decide_eq_true_2.
Qed.

End Sort.

Lemma before_total sortBy a b : before sortBy a b ∨ before sortBy b a.
Proof.
  unfold before, compare_tickets. repeat case_bool_decide; lia.
Qed.

#[global] Instance before_trans sortBy : Transitive (before sortBy).
Proof.
  intros a b c. unfold before, compare_tickets. repeat case_bool_decide; lia.
Qed.

(** X25. The sorted view of the ticket list holds the same tickets as the
    fetched list, none lost and none repeated, in the order of the chosen
    option: by priority high, then medium, then low; by status open, then
    pending, then resolved; by date newest first.  An option it does not
    know leaves the list as it is. *)
Theorem sortedTickets_sorts (sortBy : string) (tickets : list EnrichedTicket.t) :
  sortedTickets sortBy tickets ≡ₚ tickets ∧
  StronglySorted (before sortBy) (sortedTickets sortBy tickets) ∧
  (∀ a b, before "priority" a b ↔
          priorityOrder (Ticket.priority (EnrichedTicket.row a))
          ≤ priorityOrder (Ticket.priority (EnrichedTicket.row b))) ∧
  (∀ a b, before "status" a b ↔
          statusOrder (Ticket.status (EnrichedTicket.row a))
          ≤ statusOrder (Ticket.status (EnrichedTicket.row b))) ∧
  (∀ a b, before "date" a b ↔
          Ticket.updated_at (EnrichedTicket.row b)
          ≤ Ticket.updated_at (EnrichedTicket.row a)) ∧
  (sortBy ≠ "date" -> sortBy ≠ "priority" -> sortBy ≠ "status" ->
   sortedTickets sortBy tickets = tickets).
Proof.
  split; [apply js_sort_Permutation|].
  split.
  { apply Sorted_StronglySorted; [apply _|].
    apply (js_sort_Sorted (compare_tickets sortBy)). apply before_total. }
  repeat split; unfold before, compare_tickets; simpl; try lia.
  intros H1 H2 H3. unfold sortedTickets. apply js_sort_sorted.
  unfold compare_tickets. rewrite !bool_decide_eq_false_2 by done.
  induction tickets as [|t l IH]; [constructor|].
  constructor; [exact IH|]. destruct l; constructor. lia.
Qed.

Lemma Sorted_rows_before (l : list EnrichedTicket.t) :
  Sorted newest_first (map EnrichedTicket.row l) -> Sorted (before "date") l.
Proof.
  induction l as [|a l IH]; [constructor|].
  simpl. intros Hs. apply Sorted_inv in Hs as [Hs Hhd].
  constructor; [by apply IH|].
  destruct l as [|b l]; [constructor|]. simpl in Hhd.
  apply HdRel_inv in Hhd. constructor.
  unfold before, compare_tickets, newest_first in *. simpl. lia.
Qed.

(** X26. The default sort of the list view, by date, leaves the list
    [getTickets] returned exactly as it is: the backend's order is the
    order shown. *)
Theorem sortedTickets_by_date_keeps_fetched_order
  (w : World) (userType : UserType) (status : option string) :
  sortedTickets "date" (fst (run (getTickets userType status) w))
  = fst (run (getTickets userType status) w).
Proof.
  unfold sortedTickets. apply js_sort_sorted.
  apply (Sorted_rows_before (fst (run (getTickets userType status) w))).
  rewrite getTickets_rows. destruct (fault w (tick w) _); [constructor|].
  apply Sorted_merge_sort. apply _.
Qed.

(** X27. Toggling a ticket in the selection flips whether it is selected
    and nothing else: every other id is selected exactly if it was, a
    selection without repetition stays without, and toggling a ticket that
    was not selected twice restores the selection.  Select-all clears the
    selection when it has as many entries as the list has tickets, and
    otherwise selects every ticket of the list, in order. *)
Theorem toggleSelectTicket_flips_one
  (prev : list string) (ticketId : string) (tickets : list EnrichedTicket.t) :
  (ticketId ∈ toggleSelectTicket prev ticketId ↔ ticketId ∉ prev) ∧
  (∀ x, x ≠ ticketId -> x ∈ toggleSelectTicket prev ticketId ↔ x ∈ prev) ∧
  (NoDup prev -> NoDup (toggleSelectTicket prev ticketId)) ∧
  (ticketId ∉ prev ->
   toggleSelectTicket (toggleSelectTicket prev ticketId) ticketId = prev) ∧
  (length prev = length tickets -> selectAll prev tickets = []) ∧
  (length prev ≠ length tickets ->
   selectAll prev tickets
   = map (fun t => Ticket.id (EnrichedTicket.row t)) tickets ∧
   length (selectAll prev tickets) = length tickets).
Proof.
  unfold toggleSelectTicket. repeat split.
  - case_bool_decide as Hin; [|done].
    intros H. apply list_elem_of_filter in H as [H _]. done.
  - intros Hnot. rewrite bool_decide_eq_false_2 by done.
    apply elem_of_app. right. by left.
  - case_bool_decide.
    + intros Hx. by apply list_elem_of_filter in Hx as [_ ?].
    + intros Hx. apply elem_of_app in Hx as [?|Hx]; [done|].
      apply list_elem_of_singleton in Hx. done.
  - case_bool_decide.
    + intros Hx. by apply list_elem_of_filter.
    + intros Hx. apply elem_of_app. by left.
  - intros Hnd. case_bool_decide.
    + by apply NoDup_filter.
    + apply NoDup_app. split; [done|]. split; [|apply NoDup_singleton].
      intros x Hx Hx'. apply list_elem_of_singleton in Hx'. by subst.
  - intros Hnot. rewrite (bool_decide_eq_false_2 _ Hnot).
    rewrite bool_decide_eq_true_2 by (apply elem_of_app; right; left).
    rewrite filter_app, filter_cons_False, filter_nil, app_nil_r by (by intros ?).
    clear tickets. induction prev as [|x prev IH]; [done|].
    apply not_elem_of_cons in Hnot as [Hx Hnot].
    rewrite filter_cons_True by done. by rewrite IH.
  - intros Hlen. unfold selectAll. by rewrite bool_decide_eq_true_2.
  - unfold selectAll. by rewrite bool_decide_eq_false_2.
  - unfold selectAll. rewrite bool_decide_eq_false_2 by done.
    by rewrite length_map.
Qed.

(** ** Replying in a thread *)

Lemma ticket_rows_map_update (f : Ticket.t -> Ticket.t) ticketId k (l : list Ticket.t) :
  (∀ r, Ticket.id (f r) = Ticket.id r) ->
  filter (fun t => Ticket.id t = k)
    (map (fun r => if bool_decide (Ticket.id r = ticketId) then f r else r) l)
  = map (fun r => if bool_decide (Ticket.id r = ticketId) then f r else r)
        (filter (fun t => Ticket.id t = k) l).
Proof.
  intros Hf. induction l as [|r l IH]; [done|]. simpl map.
  assert (Hid : Ticket.id (if bool_decide (Ticket.id r = ticketId)
                           then f r else r) = Ticket.id r)
    by (by case_bool_decide).
  destruct (decide (Ticket.id r = k)) as [Hr|Hr].
  - rewrite !filter_cons_True by (by rewrite ?Hid). simpl map. by rewrite IH.
  - rewrite !filter_cons_False by (by rewrite ?Hid). done.
Qed.

Lemma ticket_rows_updated (f : Ticket.t -> Ticket.t) ticketId t (l : list Ticket.t) :
  (∀ r, Ticket.id (f r) = Ticket.id r) ->
  filter (fun t => Ticket.id t = ticketId) l = [t] ->
  filter (fun t => Ticket.id t = ticketId)
    (map (fun r => if bool_decide (Ticket.id r = ticketId) then f r else r) l)
  = [f t].
Proof.
  intros Hf Hrows. rewrite ticket_rows_map_update, Hrows by done. simpl.
  rewrite bool_decide_eq_true_2; [done|].
  assert (Ht : t ∈ filter (fun t => Ticket.id t = ticketId) l)
    by (rewrite Hrows; left).
  by apply list_elem_of_filter in Ht as [? _].
Qed.

Section ReplyProperties.
Context (trim : string -> string).

(** X28. A customer's reply on a ticket the thread view holds as resolved
    first reopens the ticket and then records the message: with no failing
    request and the ticket stored, the requests are the status update, the
    message insert and the timestamp refresh, in this order, and afterwards
    the stored ticket is open and the message is the last stored one.  An
    admin's reply issues no status update, and a reply that is blank after
    trimming issues no request at all. *)
Theorem reply_reopens_resolved_ticket
  (w : World) (ticketId : string) (u : User) (replyContent : string)
  (ticket : option EnrichedTicket.t) (t : Ticket.t) :
  ticketId ≠ "" ->
  trim replyContent ≠ "" ->
  reliable w ->
  ticket_rows ticketId (db w) = [t] ->
  Ticket.status ∘ EnrichedTicket.row <$> ticket = Some resolved ->
  let w' := snd (run (handleSubmitReply trim (Some ticketId) (Some u)
                        replyContent ticket customer) w) in
  log w' = log w ++
    [UpdateTicket ticketId
       (TicketUpdates.with_updated_at (status_update open) (now w));
     InsertMessage ticketId (user_id u) replyContent;
     UpdateTicket ticketId (only_updated_at (now w + 2))] ∧
  ticket_rows ticketId (db w') = [with_status t open (now w + 2)] ∧
  messages (db w') = messages (db w) ++
    [Message.mk (uuid w (S (tick w))) ticketId (user_id u) replyContent
       (now w + 1)] ∧
  log (snd (run (handleSubmitReply trim (Some ticketId) (Some u)
                   replyContent ticket admin) w))
  = log w ++ [InsertMessage ticketId (user_id u) replyContent;
              UpdateTicket ticketId (only_updated_at (now w + 1))] ∧
  (∀ blank, trim blank = "" ->
     run (handleSubmitReply trim (Some ticketId) (Some u) blank ticket customer) w
     = (tt, w)).
Proof.
  intros Hid Hreply Hrel Hrows Hresolved w'.
  assert (Hguard : ∀ c, negb (truthy (Some ticketId)) || negb (truthy (Some (trim c)))
                        = bool_decide (trim c = "")).
  { intros c. unfold truthy. rewrite (bool_decide_eq_false_2 _ Hid).
    simpl. by case_bool_decide. }
  split; [|split; [|split; [|split]]].
  4: { unfold handleSubmitReply. rewrite Hguard, (bool_decide_eq_false_2 _ Hreply).
       rewrite andb_false_r. rewrite run_bind. cbn [run].
       rewrite run_bind.
       destruct (createMessage_reliable w ticketId (user_id u) replyContent Hrel)
         as (w1 & -> & _ & _ & _ & _ & Hlog & _).
       done. }
  4: { intros blank Hblank. unfold handleSubmitReply.
       rewrite Hguard, (bool_decide_eq_true_2 _ Hblank). done. }
  all: subst w'; unfold handleSubmitReply;
    rewrite Hguard, (bool_decide_eq_false_2 _ Hreply);
    rewrite (bool_decide_eq_true_2 _ Hresolved); cbn [andb bool_decide];
    rewrite bool_decide_eq_true_2 by done;
    rewrite run_bind, run_bind, run_updateTicket; cbv zeta;
    rewrite (Hrel _ _), Hrows; cbn [run]; rewrite run_bind;
    match goal with |- context [run (createMessage _ _ _) ?w0] =>
      set (w1 := w0);
      assert (Hrel1 : reliable w1) by done;
      assert (Hrows1 : ticket_rows ticketId (db w1)
                       = [with_status t open (now w)])
        by (unfold ticket_rows in *; subst w1; cbn [db advance set_db tickets];
            by apply (ticket_rows_updated
                        (TicketUpdates.apply
                           (TicketUpdates.with_updated_at (status_update open)
                              (now w)))));
      assert (Hnow1 : now w1 = now w + 1)
        by (unfold now; subst w1; cbn [tick advance set_db];
            by rewrite Nat2Z.inj_succ);
      destruct (createMessage_reliable w1 ticketId (user_id u) replyContent Hrel1)
        as (w2 & -> & _ & Hm & _ & _ & Hlog & Ht)
    end; cbn [run snd].
  - rewrite Hlog, Hnow1. subst w1. cbn [log advance set_db].
    replace (now w + 1 + 1) with (now w + 2) by lia.
    by rewrite <- app_assoc.
  - unfold ticket_rows at 1. rewrite Ht, Hrows1, Hnow1.
    replace (now w + 1 + 1) with (now w + 2) by lia.
    by rewrite (ticket_rows_updated _ ticketId (with_status t open (now w)));
      [|done|exact Hrows1].
  - rewrite Hm. subst w1. cbn [db advance set_db messages].
    unfold new_message. rewrite Hnow1. done.
Qed.

End ReplyProperties.

Lemma reply_reopens_resolved_ticket_witness :
  let w' := snd (run (handleSubmitReply (fun s => s) (Some "t3")
                        (Some (mkUser "u-alice" None)) "Still missing."
                        (Some (decorate_ticket ∅ ∅ ∅ ∅ ticket3)) customer)
                   sample_world) in
  log w' = log sample_world ++
    [UpdateTicket "t3"
       (TicketUpdates.with_updated_at (status_update open) (now sample_world));
     InsertMessage "t3" "u-alice" "Still missing.";
     UpdateTicket "t3" (only_updated_at (now sample_world + 2))] ∧
  ticket_rows "t3" (db w') = [with_status ticket3 open (now sample_world + 2)] ∧
  messages (db w') = messages (db sample_world) ++
    [Message.mk (uuid sample_world 11%nat) "t3" "u-alice" "Still missing."
       (now sample_world + 1)] ∧
  log (snd (run (handleSubmitReply (fun s => s) (Some "t3")
                   (Some (mkUser "u-alice" None)) "Still missing."
                   (Some (decorate_ticket ∅ ∅ ∅ ∅ ticket3)) admin) sample_world))
  = log sample_world ++ [InsertMessage "t3" "u-alice" "Still missing.";
                         UpdateTicket "t3" (only_updated_at (now sample_world + 1))] ∧
  (∀ blank, (fun s : string => s) blank = "" ->
     run (handleSubmitReply (fun s => s) (Some "t3") (Some (mkUser "u-alice" None))
            blank (Some (decorate_ticket ∅ ∅ ∅ ∅ ticket3)) customer) sample_world
     = (tt, sample_world)).
Proof.
  apply (reply_reopens_resolved_ticket (fun s => s) sample_world "t3"
           (mkUser "u-alice" None) "Still missing."
           (Some (decorate_ticket ∅ ∅ ∅ ∅ ticket3)) ticket3).
  - discriminate.
  - discriminate.
  - intros n rq. reflexivity.
  - reflexivity.
  - reflexivity.
Defined.

(** ** Attachments and profile edits *)

(** X29. [uploadAttachment] returns a record only after both of its steps
    went through: the file is then stored under [messageId/name] and the
    record, carrying the message id, the file's name and size and that path,
    is the last row of the attachments table.  When it returns nothing, no
    row has been added, and either only the upload was attempted or the
    upload went through and the insert did not.  In the latter case the
    uploaded file stays in the bucket without a record.  Profiles, tickets
    and messages are never touched. *)
Theorem uploadAttachment_record_needs_both_steps
  (file : File) (messageId : string) (b : Backend) :
  let path := messageId +:+ "/" +:+ file_name file in
  let upload := StorageUpload "attachments" path in
  let insert := InsertAttachment messageId (file_name file) path (file_size file) in
  let r := fst (uploadAttachment file messageId b) in
  let b' := snd (uploadAttachment file messageId b) in
  let d := db (world b) in
  let d' := db (world b') in
  (profiles d' = profiles d ∧ tickets d' = tickets d ∧ messages d' = messages d) ∧
  match r with
  | Some a =>
      a = Attachment.mk (uuid (world b) (S (tick (world b)))) messageId
            (file_name file) path (file_size file) (now (world b) + 1) ∧
      attachments d' = attachments d ++ [a] ∧
      blobs b' = blobs b ++ [(path, file)] ∧
      more_log b' = more_log b ++ [upload; insert]
  | None =>
      attachments d' = attachments d ∧
      ((blobs b' = blobs b ∧ more_log b' = more_log b ++ [upload]) ∨
       (blobs b' = blobs b ++ [(path, file)] ∧
        more_log b' = more_log b ++ [upload; insert]))
  end ∧
  (more_fault b (tick (world b)) upload = None ->
   path ∉ map fst (blobs b) ->
   is_Some (more_fault b (S (tick (world b))) insert) ->
   r = None ∧ blobs b' = blobs b ++ [(path, file)]).
Proof.
  intros path upload insert r b' d d'.
  subst r b' d d'. unfold uploadAttachment. fold path.
  unfold storage_upload, attachments_insert, more_round_trip. fold upload insert.
  destruct (more_fault b (tick (world b)) upload) as [e|] eqn:Hup.
  { cbn. split; [done|]. split; [|done]. split; [done|]. by left. }
  case_bool_decide as Hdup.
  { cbn. split; [done|]. split; [|done]. split; [done|]. by left. }
  cbn [more_advance world blobs more_fault more_log tick fst snd].
  destruct (more_fault b (S (tick (world b))) insert) as [e|] eqn:Hins.
  { cbn. split; [done|]. split.
    - split; [done|]. right. by rewrite <- app_assoc.
    - done. }
  cbn. split; [done|]. split.
  - unfold now. cbn. rewrite <- app_assoc.
    rewrite Nat2Z.inj_succ. done.
  - by intros _ _ [? ?].
Qed.




